(** * Country list API: the Lambda handlers of [src/handlers.ts]

    A shallow embedding of the request handlers (country CRUD, the
    neighbour relation, the paginated listing) over a model of the two
    DynamoDB tables, and the properties of the specification checked
    against it.

    Conventions of the embedding.
    - A handler is a computation in the monad [M]: it reads and writes the
      [world] (the two tables and the number of identifiers drawn so far)
      and either returns a value or throws a JavaScript exception.  Writes
      made before a throw stay in the world, as in the source.
    - Each handler takes the fields of the [APIGatewayProxyEvent] that it
      reads: the path parameter, the query-string parameters, the body.
      A body is given by what [JSON.parse] makes of it ([parsed]).
    - A response body is kept as the value handed to [JSON.stringify].
    - JSON numbers are integers.  The numbers of the listing handler
      ([JS.number]) are the doubles that are integers, with [-0], the
      infinities and [NaN]: what [parseInt], a sum, a difference or a
      product gives is rounded to the nearest double ([JS.round]), so it
      is exact below 2^53 and an infinity on overflow.  A quotient only
      occurs under [Math.ceil], with an array length as its numerator.
    - An array has fewer than 2^32 elements; what is proved of a page is
      stated for record sets of such a length.
    - Strings are byte strings; the character classes of [parseInt] and
      string iteration are those of ASCII text.
    - The tables are finite maps on their keys and the DocumentClient
      serves every request, a [put] without its key attribute apart:
      throttling, size limits and the paging of [scan] are outside the
      model.  [scan] and [query] list the items in the order of the map.
      What is proved of a batch write is stated for batches that
      [BatchWriteItem] accepts: 1 to 25 records with distinct keys. *)

From Stdlib Require Import Ascii String ZArith.
From stdpp Require Import gmap strings list fin_maps pretty sorting.

Set Warnings "-register-all".
Local Open Scope string_scope.
Local Open Scope Z_scope.
Local Open Scope list_scope.

(** ** JSON values *)

Inductive json :=
  | JNull
  | JBool (b : bool)
  | JNum (z : Z)
  | JStr (s : string)
  | JArr (l : list json)
  | JObj (o : gmap string json).

(** An object literal, written as the list of its properties. *)
Definition obj (l : list (string * json)) : json := JObj (list_to_map l).

(** ** The JavaScript primitives the handlers use *)

Module JS.

(** Numbers.  [Num 0] is [+0]. *)
Inductive number :=
  | Num (z : Z)
  | NegZero
  | PInf
  | NInf
  | NaN.

Definition is_neg (x : number) : bool :=
  match x with
  | Num z => z <? 0
  | NegZero | NInf => true
  | PInf | NaN => false
  end.

Definition is_zero (x : number) : bool :=
  match x with
  | Num 0 | NegZero => true
  | _ => false
  end.

Definition is_inf (x : number) : bool :=
  match x with
  | PInf | NInf => true
  | _ => false
  end.

(** The integer a finite number stands for ([-0] is [0]). *)
Definition toZ (x : number) : Z :=
  match x with
  | Num z => z
  | _ => 0
  end.

(** Unary minus. *)
Definition neg (x : number) : number :=
  match x with
  | Num 0 => NegZero
  | Num z => Num (- z)
  | NegZero => Num 0
  | PInf => NInf
  | NInf => PInf
  | NaN => NaN
  end.

(** The double nearest to the integer [z], ties to even.  An integer of
    magnitude below 2^53 is a double.  Beyond, a double keeps the 53
    leading bits: the [e] bits below them are rounded away, and the result
    is an infinity when it reaches 2^1024. *)
Definition round (z : Z) : number :=
  let a := Z.abs z in
  if a <? 2 ^ 53 then Num z
  else
    let e := Z.log2 a - 52 in
    let q := a / 2 ^ e in
    let r := a mod 2 ^ e in
    let half := 2 ^ (e - 1) in
    let q' := if (half <? r) || ((r =? half) && Z.odd q) then q + 1 else q in
    let v := q' * 2 ^ e in
    if 2 ^ 1024 <=? v then (if z <? 0 then NInf else PInf)
    else Num (if z <? 0 then - v else v).

(** [x + y]. *)
Definition add (x y : number) : number :=
  match x, y with
  | NaN, _ | _, NaN => NaN
  | PInf, NInf | NInf, PInf => NaN
  | PInf, _ | _, PInf => PInf
  | NInf, _ | _, NInf => NInf
  | NegZero, NegZero => NegZero
  | NegZero, Num z | Num z, NegZero => Num z
  | Num a, Num b => round (a + b)
  end.

(** [x - y]. *)
Definition sub (x y : number) : number := add x (neg y).

(** [x * y]. *)
Definition mul (x y : number) : number :=
  match x, y with
  | NaN, _ | _, NaN => NaN
  | _, _ =>
      let s := xorb (is_neg x) (is_neg y) in
      if is_inf x || is_inf y then
        if is_zero x || is_zero y then NaN
        else if s then NInf else PInf
      else
        let m := Z.abs (toZ x) * Z.abs (toZ y) in
        if m =? 0 then (if s then NegZero else Num 0)
        else round (if s then - m else m)
  end.

(** [x < y]. *)
Definition lt (x y : number) : bool :=
  match x, y with
  | NaN, _ | _, NaN => false
  | PInf, _ | _, NInf => false
  | _, PInf | NInf, _ => true
  | _, _ => toZ x <? toZ y
  end.

(** [x > y]. *)
Definition gt (x y : number) : bool := lt y x.

(** [Math.ceil(n / d)] for an array length [n]: below 2^32, so that
    rounding the quotient to a double does not change its ceiling. *)
Definition Math_ceil_div (n : nat) (d : number) : number :=
  match d with
  | NaN => NaN
  | PInf => Num 0
  | NInf => NegZero
  | Num 0 => if (n =? 0)%nat then NaN else PInf
  | NegZero => if (n =? 0)%nat then NaN else NInf
  | Num l =>
      if 0 <? l then Num ((Z.of_nat n + l - 1) / l)
      else
        let q := Z.of_nat n / (- l) in
        if q =? 0 then NegZero else Num (- q)
  end.

(** [JSON.stringify] of a number: [null] unless it is finite. *)
Definition number_to_json (x : number) : json :=
  match x with
  | Num z => JNum z
  | NegZero => JNum 0
  | PInf | NInf | NaN => JNull
  end.

(** White space skipped by [parseInt]: TAB, LF, VT, FF, CR, SP. *)
Definition is_space (a : ascii) : bool :=
  let n := N_of_ascii a in
  ((9 <=? n) && (n <=? 13) || (n =? 32))%N.

Fixpoint trim_start (s : string) : string :=
  match s with
  | String a s' => if is_space a then trim_start s' else s
  | EmptyString => s
  end.

(** The value of a digit in radix 10 or 16. *)
Definition digit_value (radix : N) (a : ascii) : option N :=
  let n := N_of_ascii a in
  (if (48 <=? n) && (n <=? 57) then Some (n - 48)
   else if (radix =? 16) && (97 <=? n) && (n <=? 102) then Some (n - 87)
   else if (radix =? 16) && (65 <=? n) && (n <=? 70) then Some (n - 55)
   else None)%N.

(** The longest prefix of digits, read in the radix; [acc] is the value
    read so far, [None] while no digit has been seen. *)
Fixpoint digits (radix : N) (s : string) (acc : option N) : option N :=
  match s with
  | String a s' =>
      match digit_value radix a with
      | Some d => digits radix s' (Some (radix * default 0%N acc + d)%N)
      | None => acc
      end
  | EmptyString => acc
  end.

(** [parseInt(s)] with no radix argument: the double nearest to the
    integer that the digits write.  (For a decimal of more than 20
    significant digits the language lets an implementation choose among
    the neighbouring doubles; the properties of the listing take the
    parsed number as it is given.) *)
Definition parseInt (s : string) : number :=
  let s1 := trim_start s in
  let '(negative, s2) :=
    match s1 with
    | String "-"%char r => (true, r)
    | String "+"%char r => (false, r)
    | _ => (false, s1)
    end in
  let '(radix, s3) :=
    match s2 with
    | String "0"%char (String "x"%char r)
    | String "0"%char (String "X"%char r) => (16%N, r)
    | _ => (10%N, s2)
    end in
  match digits radix s3 None with
  | None => NaN
  | Some 0%N => if negative then NegZero else Num 0
  | Some n => round (if negative then - Z.of_N n else Z.of_N n)
  end.

(** The index [Array.prototype.slice] makes of an argument, for an array
    of length [len]. *)
Definition relative_index (len : nat) (i : number) : nat :=
  match i with
  | NaN | NegZero | NInf => 0%nat
  | PInf => len
  | Num z =>
      if z <? 0 then Z.to_nat (Z.max (Z.of_nat len + z) 0)
      else Z.to_nat (Z.min z (Z.of_nat len))
  end.

(** [l.slice(start, end)]. *)
Definition slice {A} (l : list A) (start end_ : number) : list A :=
  let k := relative_index (length l) start in
  let final := relative_index (length l) end_ in
  take (final - k)%nat (drop k l).

(** The string a template literal makes of a value; [None] is
    [undefined]. *)
Fixpoint ToString (v : json) : string :=
  match v with
  | JNull => "null"
  | JBool true => "true"
  | JBool false => "false"
  | JNum z => pretty z
  | JStr s => s
  | JArr l =>
      String.concat ","
        (map (fun e => match e with
                       | JNull => EmptyString
                       | _ => ToString e
                       end) l)
  | JObj _ => "[object Object]"
  end.

Definition template (v : option json) : string :=
  match v with
  | None => "undefined"
  | Some j => ToString j
  end.

(** The characters of a string, each as a string. *)
Fixpoint chars (s : string) : list string :=
  match s with
  | String a s' => String a EmptyString :: chars s'
  | EmptyString => []
  end.

(** The own enumerable properties copied by [{...v}]. *)
Definition spread (v : json) : gmap string json :=
  match v with
  | JObj o => o
  | JArr l => list_to_map (imap (fun i e => (pretty i, e)) l)
  | JStr s => list_to_map (imap (fun i c => (pretty i, JStr c)) (chars s))
  | JNull | JBool _ | JNum _ => ∅
  end.

(** [s.includes(t)] on strings, as DynamoDB's [contains] needs it. *)
Fixpoint is_substring (t s : string) : bool :=
  String.prefix t s ||
  match s with
  | String _ s' => is_substring t s'
  | EmptyString => false
  end.

End JS.

(** ** Exceptions, responses and the handler monad *)

(** The exceptions a handler can meet, each with its [message].  A
    [ValidationError] is yup's and carries the list of failures; an
    [HttpError] is the class of the source. *)
Inductive exn :=
  | SyntaxError (message : string)
  | TypeError (message : string)
  | Error (message : string)
  | ValidationError (errors : list string)
  | HttpError (statusCode : Z) (message : string).

Definition message (e : exn) : string :=
  match e with
  | SyntaxError m | TypeError m | Error m | HttpError _ m => m
  | ValidationError [m] => m
  | ValidationError errors => pretty (length errors) +:+ " errors occurred"
  end.

(** What [JSON.parse(event.body)] gives: a value, or a [SyntaxError] with
    the parser's message. *)
Inductive parsed :=
  | Parsed (v : json)
  | Unparsable (message : string).

(** A response body: [JSON.stringify] of a value ([None] is [undefined])
    or a string given as such. *)
Inductive body_t :=
  | JSON_stringify (v : option json)
  | Text (s : string).

Record response := Response {
  statusCode : Z;
  r_headers : option (list (string * string));
  body : body_t;
}.

Definition tableName : string := "CountriesTable".
Definition nighbortableName : string := "CountryNeighborsTable".
Definition headers : list (string * string) :=
  [("content-type", "application/json")].

(** A stored country is the object that was put. *)
Abbreviation item := (gmap string json).

(** The two tables.  [CountriesTable] is keyed by the attribute
    [countryID]; [CountryNeighborsTable] by the pair of [countryID] and
    [neighborId], and its items have no other attribute, so the table is
    the set of its keys.  [v4_calls] counts the identifiers drawn. *)
Record world := World {
  CountriesTable : gmap string item;
  CountryNeighborsTable : gset (string * string);
  v4_calls : nat;
}.

Inductive outcome (A : Type) :=
  | Return (a : A)
  | Throw (e : exn).
Arguments Return {A} a.
Arguments Throw {A} e.

Definition M (A : Type) : Type := world -> outcome A * world.

Definition ret {A} (a : A) : M A := fun w => (Return a, w).

Definition throw {A} (e : exn) : M A := fun w => (Throw e, w).

Definition bind {A B} (m : M A) (k : A -> M B) : M B :=
  fun w =>
    match m w with
    | (Return a, w') => k a w'
    | (Throw e, w') => (Throw e, w')
    end.

(** [try { m } catch (e) { h e }]. *)
Definition try_catch {A} (m : M A) (h : exn -> M A) : M A :=
  fun w =>
    match m w with
    | (Return a, w') => (Return a, w')
    | (Throw e, w') => h e w'
    end.

Notation "'let*' x ':=' m 'in' k" := (bind m (fun x => k))
  (at level 10, x pattern, m at level 100, k at level 200).
Notation "m ';;' k" := (bind m (fun _ => k))
  (at level 100, k at level 200, right associativity).

Fixpoint mapM {A B} (f : A -> M B) (l : list A) : M (list B) :=
  match l with
  | [] => ret []
  | x :: l' => let* y := f x in let* ys := mapM f l' in ret (y :: ys)
  end.

(** [JSON.parse(event.body as string)]. *)
Definition JSON_parse (b : parsed) : M json :=
  match b with
  | Parsed v => ret v
  | Unparsable m => throw (SyntaxError m)
  end.

(** [v.key] for a key that no prototype defines: the own property of an
    object, [undefined] on any other value, a [TypeError] on [null]. *)
Definition get_property (v : json) (key : string) : M (option json) :=
  match v with
  | JNull =>
      throw (TypeError
        ("Cannot read properties of null (reading '" +:+ key +:+ "')"))
  | JObj o => ret (o !! key)
  | _ => ret None
  end.

(** The elements a [for ... of] loop visits. *)
Definition iterate (name : string) (v : option json) : M (list json) :=
  match v with
  | Some (JArr l) => ret l
  | Some (JStr s) => ret (JStr <$> JS.chars s)
  | _ => throw (TypeError (name +:+ " is not iterable"))
  end.

(** ** The DocumentClient on the two tables *)

(** [docClient.get] on [CountriesTable]. *)
Definition fetchCountryById (id : string) : M (option item) :=
  fun w => (Return (CountriesTable w !! id), w).

(** [docClient.put] on [CountriesTable]: the item replaces whatever is
    stored under its [countryID]. *)
Definition put_country (Item : item) : M unit :=
  fun w =>
    match Item !! "countryID" with
    | Some (JStr id) =>
        (Return (),
         World (<[id := Item]> (CountriesTable w))
               (CountryNeighborsTable w) (v4_calls w))
    | _ => (Throw (Error "ValidationException"), w)
    end.

(** [docClient.batchWrite] of put requests on [CountriesTable]. *)
Fixpoint batchWrite (Items : list item) : M unit :=
  match Items with
  | [] => ret ()
  | Item :: rest => put_country Item ;; batchWrite rest
  end.

(** [docClient.delete] on [CountriesTable]. *)
Definition delete_country (id : string) : M unit :=
  fun w =>
    (Return (),
     World (delete id (CountriesTable w))
           (CountryNeighborsTable w) (v4_calls w)).

(** DynamoDB's [contains(attribute, operand)] for a string operand. *)
Definition contains (attribute : option json) (operand : string) : bool :=
  match attribute with
  | Some (JStr s) => JS.is_substring operand s
  | Some (JArr l) =>
      existsb (fun e => match e with
                        | JStr s => String.eqb s operand
                        | _ => false
                        end) l
  | _ => false
  end.

(** The filter expression of the listing handler. *)
Definition FilterExpression (search : string) (i : item) : bool :=
  contains (i !! "name") search || contains (i !! "region") search
  || contains (i !! "subregion") search.

(** [docClient.scan] on [CountriesTable], with the filter when a search
    text is given. *)
Definition scan (search : option string) : M (list item) :=
  fun w =>
    let Items := (map_to_list (CountriesTable w)).*2 in
    (Return (match search with
             | Some s => List.filter (FilterExpression s) Items
             | None => Items
             end), w).

(** The scan that projects [countryID]. *)
Definition fetchAllCountryIds : M (list string) :=
  fun w => (Return ((map_to_list (CountriesTable w)).*1), w).

(** [docClient.get] on [CountryNeighborsTable]; the result is used for
    its truth value only. *)
Definition fetchNeighbor (countryID neighborId : string) : M bool :=
  fun w =>
    (Return (bool_decide ((countryID, neighborId) ∈ CountryNeighborsTable w)),
     w).

(** [docClient.put] on [CountryNeighborsTable]. *)
Definition addNeighbor (countryID neighborId : string) : M unit :=
  fun w =>
    (Return (),
     World (CountriesTable w)
           ({[ (countryID, neighborId) ]} ∪ CountryNeighborsTable w)
           (v4_calls w)).

(** [docClient.query] on [CountryNeighborsTable] by partition key. *)
Definition fetchNeighborsByCountryId (countryID : string) : M (list string) :=
  fun w =>
    (Return
       ((filter (fun p => p.1 = countryID)
           (elements (CountryNeighborsTable w))).*2),
     w).

(** ** Record CRUD *)

(** The double-quote character, as a string. *)
Definition dquote : string := String "034"%char EmptyString.

Definition handleError (e : exn) : M response :=
  match e with
  | ValidationError errors =>
      ret (Response 400 (Some headers)
             (JSON_stringify (Some (obj [("errors", JArr (JStr <$> errors))]))))
  | SyntaxError m =>
      ret (Response 400 (Some headers)
             (JSON_stringify (Some (obj
                [("error",
                  JStr ("invalid request body format : " +:+ dquote +:+ m
                        +:+ dquote))]))))
  | HttpError status m => ret (Response status (Some headers) (Text m))
  | _ => throw e
  end.

(** The response of the handlers that answer every exception with 500. *)
Definition internalServerError (error : exn) : M response :=
  ret (Response 500 (Some headers)
         (JSON_stringify (Some (obj
            [("message", JStr "Internal Server Error");
             ("error", JStr (message error))])))).

Section Create.

(** [v4 n] is the identifier that the [n]-th call of uuid's [v4] yields. *)
Variable v4 : nat -> string.

Definition v4_next : M string :=
  fun w =>
    (Return (v4 (v4_calls w)),
     World (CountriesTable w) (CountryNeighborsTable w) (S (v4_calls w))).

Definition createCountry (event_body : parsed) : M response :=
  try_catch
    (let* requestBody := JSON_parse event_body in
     match requestBody with
     | JArr l =>
         let* countries :=
           mapM (fun country =>
                   let* id := v4_next in
                   ret (<["countryID" := JStr id]> (JS.spread country))) l in
         batchWrite countries ;;
         ret (Response 201 (Some headers)
                (JSON_stringify (Some (JArr (JObj <$> countries)))))
     | _ => throw (Error "Request body should be an array of countries.")
     end)
    (fun error => internalServerError error).

End Create.

Definition getCountry (id : string) : M response :=
  try_catch
    (let* country := fetchCountryById id in
     ret (Response 200 (Some headers) (JSON_stringify (JObj <$> country))))
    handleError.

Section Update.

(** [schema_validate v] lists the failures that yup's
    [schema.validate(v, { abortEarly: false })] reports; none when [v]
    passes. *)
Variable schema_validate : json -> list string.

Definition validate (v : json) : M unit :=
  match schema_validate v with
  | [] => ret ()
  | errors => throw (ValidationError errors)
  end.

Definition updateCountry (id : string) (event_body : parsed) : M response :=
  try_catch
    (fetchCountryById id ;;
     let* reqBody := JSON_parse event_body in
     validate reqBody ;;
     let country := <["countryID" := JStr id]> (JS.spread reqBody) in
     put_country country ;;
     ret (Response 200 (Some headers) (JSON_stringify (Some (JObj country)))))
    handleError.

End Update.

Definition deleteCountry (id : string) : M response :=
  try_catch
    (fetchCountryById id ;;
     delete_country id ;;
     ret (Response 204 None (Text EmptyString)))
    handleError.

Definition listCountry : M response :=
  let* Items := scan None in
  ret (Response 200 (Some headers)
         (JSON_stringify (Some (JArr (JObj <$> Items))))).

(** ** Neighbour management *)

(** [ids.includes(v)]: only a string can be equal to an identifier. *)
Definition includes (ids : list string) (v : option json) : option string :=
  match v with
  | Some (JStr s) => if bool_decide (s ∈ ids) then Some s else None
  | _ => None
  end.

(** The two messages pushed to [errors]. *)
Definition invalidNeighbor (neighborId : option json) : string :=
  "Invalid neighbor country ID: " +:+ JS.template neighborId.

Definition alreadyExists (id : string) : string :=
  "Neighbor with ID " +:+ id +:+ " already exists for this country".

Arguments invalidNeighbor : simpl never.
Arguments alreadyExists : simpl never.

(** The loop of [addNeighbors] over the neighbour data still to visit,
    with the two lists it pushes to. *)
Fixpoint addNeighbors_loop (countryID : string)
    (existingCountryIds : list string) (neighborData : list json)
    (errors successfulAdditions : list string)
    : M (list string * list string) :=
  match neighborData with
  | [] => ret (errors, successfulAdditions)
  | neighborObj :: rest =>
      let* neighborId := get_property neighborObj "neighborId" in
      match includes existingCountryIds neighborId with
      | None =>
          addNeighbors_loop countryID existingCountryIds rest
            (errors ++ [invalidNeighbor neighborId])
            successfulAdditions
      | Some id =>
          let* existingNeighbor := fetchNeighbor countryID id in
          if existingNeighbor then
            addNeighbors_loop countryID existingCountryIds rest
              (errors ++ [alreadyExists id])
              successfulAdditions
          else
            addNeighbor countryID id ;;
            addNeighbors_loop countryID existingCountryIds rest
              errors (successfulAdditions ++ [id])
      end
  end.

Definition countryNotFound : response :=
  Response 404 (Some headers)
    (JSON_stringify (Some (obj
       [("message", JStr "Country not found"); ("data", obj [])]))).

(** The two responses of the result policy of [addNeighbors]. *)
Definition failedToAdd (errors : list string) : response :=
  Response 400 (Some headers)
    (JSON_stringify (Some (obj
       [("message", JStr "Failed to add neighbors");
        ("data", obj [("neighbors", JArr []);
                      ("errors", JArr (JStr <$> errors))])]))).

Definition addedSuccessfully (successfulAdditions errors : list string)
    : response :=
  Response 200 (Some headers)
    (JSON_stringify (Some (obj
       [("message", JStr "Neighbors added successfully");
        ("data", obj [("neighbors", JArr (JStr <$> successfulAdditions))]);
        ("errors", JArr (JStr <$> errors))]))).

Definition addNeighbors (countryID : string) (event_body : parsed)
    : M response :=
  try_catch
    (let* requestBody := JSON_parse event_body in
     let* neighborData := get_property requestBody "neighbors" in
     let* country := fetchCountryById countryID in
     match country with
     | None => ret countryNotFound
     | Some _ =>
         let* existingCountryIds := fetchAllCountryIds in
         let* items := iterate "neighborData" neighborData in
         let* (errors, successfulAdditions) :=
           addNeighbors_loop countryID existingCountryIds items [] [] in
         if (length successfulAdditions =? 0)%nat then
           ret (failedToAdd errors)
         else
           ret (addedSuccessfully successfulAdditions errors)
     end)
    (fun error => internalServerError error).

(** The public fields of a neighbour: response key and stored attribute.
    A field whose attribute is missing is [undefined] and is left out by
    [JSON.stringify]. *)
Definition publicFields : list (string * string) :=
  [("id", "countryID"); ("name", "name"); ("cca3", "cca3");
   ("currency_code", "currency_code"); ("currency", "currency");
   ("capital", "capital"); ("region", "region");
   ("subregion", "subregion"); ("area", "area"); ("map_url", "map_url");
   ("population", "population"); ("flag_url", "flag_url")].

Definition project (neighbor : item) : json :=
  obj (omap (fun f => (fun v => (f.1, v)) <$> neighbor !! f.2) publicFields).

Definition countryNeighbours (countries : list json) : response :=
  Response 200 (Some headers)
    (JSON_stringify (Some (obj
       [("message", JStr "Country neighbours");
        ("data", obj [("countries", JArr countries)])]))).

Definition getCountryNeighbors (countryID : string) : M response :=
  try_catch
    (let* country := fetchCountryById countryID in
     match country with
     | None => ret countryNotFound
     | Some _ =>
         let* neighbors := fetchNeighborsByCountryId countryID in
         if (length neighbors =? 0)%nat then ret (countryNeighbours [])
         else
           let* neighborCountries :=
             mapM (fun neighborId =>
                     let* neighbor := fetchCountryById neighborId in
                     match neighbor with
                     | Some n => ret (project n)
                     | None =>
                         throw (TypeError
                           "Cannot read properties of undefined (reading 'countryID')")
                     end) neighbors in
           ret (countryNeighbours neighborCountries)
     end)
    (fun error => internalServerError error).

(** ** Listing *)

(** [Array.prototype.sort] with a comparison function: the stable sort.
    [insert_sorted] puts [x], which stood before every element of [l],
    in front of the first element that does not have to precede it.
    This is the order of the source when the comparison function is
    consistent.  When it is not (a record without the sort key compares
    equal to every record) the order is left to the implementation: of
    that case the properties below use only that the result is a
    permutation of the array. *)
Fixpoint insert_sorted {A} (compareFn : A -> A -> Z) (x : A) (l : list A)
    : list A :=
  match l with
  | [] => [x]
  | y :: l' =>
      if 0 <? compareFn x y then y :: insert_sorted compareFn x l'
      else x :: l
  end.

Definition Array_sort {A} (compareFn : A -> A -> Z) (l : list A) : list A :=
  foldr (insert_sorted compareFn) [] l.

(** The sort key and direction chosen by [sort_by]. *)
Definition sortCriteria (sort_by : string) : string * Z :=
  match sort_by with
  | "a_to_z" => ("name", 1)
  | "z_to_a" => ("name", -1)
  | "population_high_to_low" => ("population", -1)
  | "population_low_to_high" => ("population", 1)
  | "area_high_to_low" => ("area", -1)
  | "area_low_to_high" => ("area", 1)
  | _ => ("name", 1)
  end.

(** The page envelope. *)
Definition countryList (countries : list item) (hasNext hasPrev : bool)
    (page totalPages per_page : JS.number) (totalCountries : nat)
    : response :=
  Response 200 None
    (JSON_stringify (Some (obj
       [("message", JStr "Country list");
        ("data", obj
           [("list", JArr (JObj <$> countries));
            ("has_next", JBool hasNext);
            ("has_prev", JBool hasPrev);
            ("page", JS.number_to_json page);
            ("pages", JS.number_to_json totalPages);
            ("per_page", JS.number_to_json per_page);
            ("total", JNum (Z.of_nat totalCountries))])]))).

Section Listing.

(** [RegExp_source s] is [new RegExp(s, "i").source], or [None] when the
    constructor rejects the pattern with a [SyntaxError]. *)
Variable RegExp_source : string -> option string.

(** [lessThan a b] is JavaScript's [a < b] on two attribute values, [None]
    standing for [undefined]. *)
Variable lessThan : option json -> option json -> bool.

Definition compareFn (sortKey : string) (sortDirection : Z) (a b : item)
    : Z :=
  let aValue := a !! sortKey in
  let bValue := b !! sortKey in
  if lessThan aValue bValue then -1 * sortDirection
  else if lessThan bValue aValue then 1 * sortDirection
  else 0.

(** The scan of the handler, with its search filter: the text of the
    filter is the source of the regular expression made of [search]. *)
Definition scanCountries (search : option string) : M (list item) :=
  match search with
  | None | Some EmptyString => scan None
  | Some s =>
      match RegExp_source s with
      | Some source => scan (Some source)
      | None => throw (SyntaxError "Invalid regular expression")
      end
  end.

Definition getAllCountriesPaginated
    (queryStringParameters : option (gmap string string)) : M response :=
  try_catch
    (let q := default ∅ queryStringParameters in
     let page := default "1" (q !! "page") in
     let limit := default "10" (q !! "limit") in
     let sort_by := default "a_to_z" (q !! "sort_by") in
     let search := q !! "search" in
     let skip :=
       JS.mul (JS.sub (JS.parseInt page) (JS.Num 1)) (JS.parseInt limit) in
     let '(sortKey, sortDirection) := sortCriteria sort_by in
     let* output_Items := scanCountries search in
     let Items := Array_sort (compareFn sortKey sortDirection) output_Items in
     let totalCountries := length Items in
     let totalPages := JS.Math_ceil_div totalCountries (JS.parseInt limit) in
     let countries :=
       JS.slice Items skip (JS.add skip (JS.parseInt limit)) in
     let hasNext := JS.lt (JS.parseInt page) totalPages in
     let hasPrev := JS.gt (JS.parseInt page) (JS.Num 1) in
     ret (countryList countries hasNext hasPrev (JS.parseInt page)
            totalPages (JS.parseInt limit) totalCountries))
    (fun error =>
       ret (Response 500 None
              (JSON_stringify (Some (obj
                 [("message", JStr "Internal Server Error");
                  ("data", obj [])]))))).

End Listing.

(** [a < b] on the values that the schema gives the sort keys: two
    strings, or two numbers. *)
Definition lessThan_typed (a b : option json) : bool :=
  match a, b with
  | Some (JStr s), Some (JStr t) => String.ltb s t
  | Some (JNum x), Some (JNum y) => x <? y
  | _, _ => false
  end.

(** ** Requests and sample data used in the statements *)

(** The body [{ neighbors: [{ neighborId: x }, ...] }]. *)
Definition neighborObj (x : string) : json := obj [("neighborId", JStr x)].

Definition neighborsBody (ids : list string) : parsed :=
  Parsed (obj [("neighbors", JArr (neighborObj <$> ids))]).

(** The [neighborId] property of an element of the neighbour data. *)
Definition neighborIdOf (neighborObj : json) : option json :=
  match neighborObj with
  | JObj o => o !! "neighborId"
  | _ => None
  end.

Definition country (id name region : string) (population area : Z) : item :=
  list_to_map
    [("countryID", JStr id); ("name", JStr name); ("region", JStr region);
     ("subregion", JStr region); ("population", JNum population);
     ("area", JNum area)].

Definition india : item := country "IN" "India" "Asia" 1400 3287.
Definition nepal : item := country "NP" "Nepal" "Asia" 30 147.

Definition emptyWorld : world := World ∅ ∅ 0.

Definition twoCountries : world :=
  World (list_to_map [("IN", india); ("NP", nepal)]) ∅ 0.

(** Twenty-five countries, numbered from 0. *)
Definition numbered (n : nat) : item :=
  country (pretty n) ("Country " +:+ pretty n) "Asia" (Z.of_nat n) 1.

Definition twentyFive : world :=
  World (list_to_map ((fun n => (pretty n, numbered n)) <$> seq 0 25)) ∅ 0.

(** The response of [createCountry] to a body that is not an array. *)
Definition notAnArray : response :=
  Response 500 (Some headers)
    (JSON_stringify (Some (obj
       [("message", JStr "Internal Server Error");
        ("error", JStr "Request body should be an array of countries.")]))).

(** The outcome of one element of the neighbour data: the identifier that
    was added, or the message that was pushed to [errors]. *)
Definition additions (os : list (string + string)) : list string :=
  omap (fun o => match o with inl id => Some id | inr _ => None end) os.

Definition failures (os : list (string + string)) : list string :=
  omap (fun o => match o with inl _ => None | inr m => Some m end) os.

(** [outcome_for tbl neighborObj o]: [o] is an outcome that the element
    [neighborObj] can have when [tbl] is the country collection. *)
Definition outcome_for (tbl : gmap string item) (neighborObj : json)
    (o : string + string) : Prop :=
  let neighborId := neighborIdOf neighborObj in
  match o with
  | inl id => neighborId = Some (JStr id) ∧ is_Some (tbl !! id)
  | inr m =>
      (m = invalidNeighbor neighborId
       ∧ ∀ id, neighborId = Some (JStr id) -> tbl !! id = None)
      ∨ (∃ id, neighborId = Some (JStr id) ∧ is_Some (tbl !! id)
               ∧ m = alreadyExists id)
  end.

(** The pairs that the additions [added] of country [c] put in the
    relation store. *)
Definition pairsOf (c : string) (added : list string)
    : gset (string * string) :=
  list_to_set ((fun a => (c, a)) <$> added).

(** ** Invariants and notions of the further properties *)

(** Every stored country carries, as its [countryID], the key it is stored
    under. *)
Definition coherent (w : world) : Prop :=
  ∀ (id : string) (i : item),
    CountriesTable w !! id = Some i -> i !! "countryID" = Some (JStr id).

(** Both ends of every stored relation are stored countries. *)
Definition referential (w : world) : Prop :=
  ∀ a b : string,
    (a, b) ∈ CountryNeighborsTable w ->
    is_Some (CountriesTable w !! a) ∧ is_Some (CountriesTable w !! b).

(** The records that [createCountry] makes of the elements [l] of the
    body when [n] identifiers have been drawn before. *)
Definition created (v4 : nat -> string) (n : nat) (l : list json)
    : list item :=
  imap (fun i c => <["countryID" := JStr (v4 (n + i)%nat)]> (JS.spread c)) l.

(** The number stored under a key, for records that hold one there. *)
Definition numberAt (key : string) (i : item) : Z :=
  match i !! key with
  | Some (JNum z) => z
  | _ => 0
  end.

(** The response of a handler that answers a [TypeError] with 500. *)
Definition typeError500 (m : string) : response :=
  Response 500 (Some headers)
    (JSON_stringify (Some (obj
       [("message", JStr "Internal Server Error"); ("error", JStr m)]))).

(** Two countries, the first listing the second as a neighbour. *)
Definition related : world :=
  World (CountriesTable twoCountries) {[ ("IN", "NP") ]} 0.

(** The identifiers [id0], [id1], ... *)
Definition numberedId (n : nat) : string := "id" +:+ pretty n.

(** The messages of the two [TypeError]s of the neighbour handlers. *)
Definition nullNeighbor : string :=
  "Cannot read properties of null (reading 'neighborId')".

Definition undefinedNeighbor : string :=
  "Cannot read properties of undefined (reading 'countryID')".

(** The fetch of one neighbour in [getCountryNeighbors]. *)
Definition fetchPublic (neighborId : string) : M json :=
  let* neighbor := fetchCountryById neighborId in
  match neighbor with
  | Some n => ret (project n)
  | None => throw (TypeError undefinedNeighbor)
  end.

(** The window of page [p] for [l] records a page. *)
Definition pageWindow {A} (items : list A) (p l : Z) : list A :=
  take (Z.to_nat l) (drop (Z.to_nat ((p - 1) * l)) items).

(** The sort orders by number: the four numeric criteria. *)
Definition numericCriteria : list (string * (string * Z)) :=
  [("population_high_to_low", ("population", -1));
   ("population_low_to_high", ("population", 1));
   ("area_high_to_low", ("area", -1));
   ("area_low_to_high", ("area", 1))].

(** The response of the listing handler to an exception. *)
Definition listingFailed : response :=
  Response 500 None
    (JSON_stringify (Some (obj
       [("message", JStr "Internal Server Error"); ("data", obj [])]))).

(** The page that a client reads in a 200 response of the listing. *)
Definition envelope (list : list item) (has_next has_prev : bool)
    (page pages per_page : Z) (total : nat) : response :=
  Response 200 None
    (JSON_stringify (Some (obj
       [("message", JStr "Country list");
        ("data", obj
           [("list", JArr (JObj <$> list));
            ("has_next", JBool has_next);
            ("has_prev", JBool has_prev);
            ("page", JNum page);
            ("pages", JNum pages);
            ("per_page", JNum per_page);
            ("total", JNum (Z.of_nat total))])]))).

(** What DynamoDB documents of [contains] for a string operand: the
    attribute is a string that has the operand as a substring, or a list
    that has it as an element. *)
Definition containsText (operand : string) (attribute : option json)
    : Prop :=
  match attribute with
  | Some (JStr s) => ∃ before after, s = before +:+ operand +:+ after
  | Some (JArr l) => JStr operand ∈ l
  | _ => False
  end.

(** A record matches a search text in its name, region or subregion. *)
Definition matches (search : string) (i : item) : Prop :=
  containsText search (i !! "name")
  ∨ containsText search (i !! "region")
  ∨ containsText search (i !! "subregion").

(** * Properties *)

(** ** Record CRUD *)

(** [getCountry] answers 200 for every identifier; the body is the stored
    record, or [undefined] when there is none. *)
Lemma getCountry_always_200 (id : string) (w : world) :
  getCountry id w =
    (Return (Response 200 (Some headers)
               (JSON_stringify (JObj <$> CountriesTable w !! id))), w).
Proof. reflexivity. Qed.

(** C4 (as the code behaves): on an identifier that is absent from the
    collection, here [XX] with only [IN] and [NP] stored, [getCountry] does
    not fail with 404 but answers 200 with an [undefined] body; on a stored
    identifier it answers 200 with the record. *)
Theorem getCountry_absent_id_200 :
  CountriesTable twoCountries !! "XX" = None
  ∧ getCountry "XX" twoCountries =
      (Return (Response 200 (Some headers) (JSON_stringify None)),
       twoCountries)
  ∧ getCountry "IN" twoCountries =
      (Return (Response 200 (Some headers)
                 (JSON_stringify (Some (JObj india)))), twoCountries).
Proof. repeat split; reflexivity. Qed.

(** [updateCountry] writes the patch under the identifier whether or not a
    record was stored there, as soon as the patch passes the schema. *)
Lemma updateCountry_upserts (schema_validate : json -> list string)
    (id : string) (reqBody : json) (w : world) :
  schema_validate reqBody = [] ->
  updateCountry schema_validate id (Parsed reqBody) w =
    let country := <["countryID" := JStr id]> (JS.spread reqBody) in
    (Return (Response 200 (Some headers)
               (JSON_stringify (Some (JObj country)))),
     World (<[id := country]> (CountriesTable w))
           (CountryNeighborsTable w) (v4_calls w)).
Proof.
  intros Hvalid.
  unfold updateCountry, try_catch, bind, validate, put_country; simpl.
  rewrite Hvalid; simpl.
  rewrite lookup_insert_eq. reflexivity.
Qed.

(** C3 (as the code behaves): [updateCountry] on the identifier [IN], which
    the empty collection does not hold, does not fail with 404: it answers
    200 and stores the patch as a new record. *)
Theorem updateCountry_absent_id_writes :
  CountriesTable emptyWorld !! "IN" = None
  ∧ updateCountry (fun _ => []) "IN" (Parsed (JObj india)) emptyWorld =
      (Return (Response 200 (Some headers)
                 (JSON_stringify (Some (JObj india)))),
       World {["IN" := india]} ∅ 0).
Proof. split; reflexivity. Qed.

(** [deleteCountry] answers 204 for every identifier. *)
Lemma deleteCountry_always_204 (id : string) (w : world) :
  deleteCountry id w =
    (Return (Response 204 None (Text EmptyString)),
     World (delete id (CountriesTable w))
           (CountryNeighborsTable w) (v4_calls w)).
Proof. reflexivity. Qed.

(** C5 (as the code behaves): the first [deleteCountry] of a stored record
    answers 204 with an empty body and removes the record; the second one,
    on the record now absent, answers 204 again instead of 404. *)
Theorem deleteCountry_twice_204 :
  let first := deleteCountry "IN" twoCountries in
  let second := deleteCountry "IN" first.2 in
  CountriesTable twoCountries !! "IN" = Some india
  ∧ first.1 = Return (Response 204 None (Text EmptyString))
  ∧ CountriesTable first.2 !! "IN" = None
  ∧ second = (Return (Response 204 None (Text EmptyString)), first.2).
Proof. repeat split; reflexivity. Qed.

(** C6 (amended): for every request body that parses to a value other than
    an array, [createCountry] writes nothing and answers 500, with the
    message [Internal Server Error] and the text of the shape error. *)
Theorem createCountry_not_array_500 (v4 : nat -> string) (v : json)
    (w : world) :
  (∀ l, v ≠ JArr l) ->
  createCountry v4 (Parsed v) w = (Return notAnArray, w)
  ∧ statusCode notAnArray = 500.
Proof.
  intros Hv. split; [|reflexivity].
  destruct v; try reflexivity.
  exfalso. by eapply Hv.
Qed.

Lemma createCountry_not_array_500_witness :
  createCountry (fun _ => "id") (Parsed (obj [("name", JStr "India")]))
    twoCountries = (Return notAnArray, twoCountries)
  ∧ statusCode notAnArray = 500.
Proof.
  apply (createCountry_not_array_500 (fun _ => "id")).
  intros l H. discriminate H.
Defined.

(** C6 as stated fails: a body that is not an array, here [null], is not
    answered with 400. *)
Lemma createCountry_not_array_not_400 :
  ¬ (∀ (v4 : nat -> string) (v : json) (w : world),
       (∀ l, v ≠ JArr l) ->
       ∃ r w', createCountry v4 (Parsed v) w = (Return r, w')
               ∧ statusCode r = 400).
Proof.
  intros H.
  destruct (H (fun _ => "id") JNull emptyWorld) as (r & w' & Hrun & Hstatus).
  - intros l Hl. discriminate Hl.
  - vm_compute in Hrun. injection Hrun as <- _. vm_compute in Hstatus.
    discriminate Hstatus.
Qed.

(** ** The neighbour relation *)

Lemma elem_of_country_ids (tbl : gmap string item) (x : string) :
  x ∈ (map_to_list tbl).*1 ↔ is_Some (tbl !! x).
Proof.
  rewrite list_elem_of_fmap. split.
  - intros [[k v] [-> Hkv]]. apply elem_of_map_to_list in Hkv. by exists v.
  - intros [v Hv]. exists (x, v). split; [done|]. by apply elem_of_map_to_list.
Qed.

Lemma includes_country_ids (tbl : gmap string item) (v : option json) :
  includes (map_to_list tbl).*1 v =
    match v with
    | Some (JStr s) => if tbl !! s is Some _ then Some s else None
    | _ => None
    end.
Proof.
  destruct v as [[| | |s| |]|]; try reflexivity. simpl.
  case_bool_decide as H; rewrite elem_of_country_ids in H.
  - by destruct H as [? ->].
  - destruct (tbl !! s); [|done]. exfalso. by apply H.
Qed.

Lemma get_neighborId (neighborObj : json) :
  neighborObj ≠ JNull ->
  get_property neighborObj "neighborId" = ret (neighborIdOf neighborObj).
Proof. by destruct neighborObj. Qed.

Lemma pairsOf_cons (c a : string) (added : list string) :
  pairsOf c (a :: added) = {[ (c, a) ]} ∪ pairsOf c added.
Proof. reflexivity. Qed.

Lemma addNeighbors_loop_outcomes (c : string) (tbl : gmap string item)
    (items : list json) :
  Forall (fun i => i ≠ JNull) items ->
  ∀ (errs adds : list string) (S : gset (string * string)) (n : nat),
  ∃ os,
    Forall2 (outcome_for tbl) items os
    ∧ Forall (fun a => (c, a) ∉ S) (additions os)
    ∧ addNeighbors_loop c (map_to_list tbl).*1 items errs adds (World tbl S n)
      = (Return (errs ++ failures os, adds ++ additions os),
         World tbl (pairsOf c (additions os) ∪ S) n).
Proof.
  induction 1 as [|i items Hi _ IH]; intros errs adds S n.
  - exists []. split; [constructor|]. split; [constructor|].
    simpl. rewrite !app_nil_r. unfold pairsOf; simpl.
    by rewrite (left_id_L ∅ (∪)).
  - simpl. rewrite (get_neighborId _ Hi). unfold bind at 1, ret at 1.
    rewrite includes_country_ids.
    destruct (neighborIdOf i) as [v|] eqn:Hid.
    2:{ destruct (IH (errs ++ [invalidNeighbor None]) adds S n)
          as (os & Hos & Hnew & Hrun).
        exists (inr (invalidNeighbor None) :: os). split; [|split].
        - constructor; [|done]. left. rewrite Hid. split; [done|]. done.
        - done.
        - rewrite Hrun. simpl. by rewrite <- app_assoc. }
    destruct v as [| | |s| |];
      try (match goal with
           | |- context [invalidNeighbor ?v] =>
               destruct (IH (errs ++ [invalidNeighbor v]) adds S n)
                 as (os & Hos & Hnew & Hrun);
               exists (inr (invalidNeighbor v) :: os)
           end;
           split; [|split];
           [ constructor; [|done]; left; rewrite Hid; by split
           | done
           | rewrite Hrun; simpl; by rewrite <- app_assoc ]).
    destruct (tbl !! s) as [cs|] eqn:Hs.
    + unfold bind, fetchNeighbor; simpl.
      case_bool_decide as Hin.
      * destruct (IH (errs ++ [alreadyExists s]) adds S n)
          as (os & Hos & Hnew & Hrun).
        exists (inr (alreadyExists s) :: os). split; [|split].
        -- constructor; [|done]. right. exists s. rewrite Hid, Hs. eauto.
        -- done.
        -- rewrite Hrun. simpl.
           by rewrite <- app_assoc.
      * destruct (IH errs (adds ++ [s]) ({[ (c, s) ]} ∪ S) n)
          as (os & Hos & Hnew & Hrun).
        exists (inl s :: os). split; [|split].
        -- constructor; [|done]. simpl. rewrite Hid, Hs. eauto.
        -- simpl. constructor; [done|].
           eapply Forall_impl; [exact Hnew|].
           intros a Ha Hin'. apply Ha, elem_of_union. by right.
        -- unfold addNeighbor; simpl. rewrite Hrun. simpl.
           rewrite <- app_assoc. simpl.
           rewrite pairsOf_cons. f_equal. f_equal.
           rewrite (assoc_L (∪)). f_equal. apply (comm_L (∪)).
    + destruct (IH (errs ++ [invalidNeighbor (Some (JStr s))]) adds S n)
        as (os & Hos & Hnew & Hrun).
      exists (inr (invalidNeighbor (Some (JStr s))) :: os). split; [|split].
      * constructor; [|done]. left. rewrite Hid. split; [done|].
        intros id [= <-]. done.
      * done.
      * rewrite Hrun. simpl. by rewrite <- app_assoc.
Qed.

(** The run of [addNeighbors] on an existing country and a body whose
    [neighbors] is an array without [null]: one outcome per element, the
    response chosen by the result policy, the additions put in the store. *)
Lemma addNeighbors_outcomes (c : string) (cs : item) (o : gmap string json)
    (items : list json) (w : world) :
  CountriesTable w !! c = Some cs ->
  o !! "neighbors" = Some (JArr items) ->
  Forall (fun i => i ≠ JNull) items ->
  ∃ os,
    Forall2 (outcome_for (CountriesTable w)) items os
    ∧ Forall (fun a => (c, a) ∉ CountryNeighborsTable w) (additions os)
    ∧ addNeighbors c (Parsed (JObj o)) w
      = (Return (match additions os with
                 | [] => failedToAdd (failures os)
                 | _ => addedSuccessfully (additions os) (failures os)
                 end),
         World (CountriesTable w)
               (pairsOf c (additions os) ∪ CountryNeighborsTable w)
               (v4_calls w)).
Proof.
  intros Hc Ho Hitems. destruct w as [tbl S n]; simpl in *.
  destruct (addNeighbors_loop_outcomes c tbl items Hitems [] [] S n)
    as (os & Hos & Hnew & Hrun).
  exists os. split; [done|]. split; [done|].
  unfold addNeighbors, try_catch, bind; simpl.
  rewrite Ho; simpl. rewrite Hc; simpl. rewrite Hrun; simpl.
  by destruct (additions os).
Qed.

Lemma outcomes_length (os : list (string + string)) :
  (length (additions os) + length (failures os) = length os)%nat.
Proof.
  induction os as [|[a|m] os IH]; simpl; lia.
Qed.

(** C10 (amended): on an existing country, for a body whose [neighbors] is
    an array without [null], every element has exactly one outcome, in
    order: its identifier in the added list or one message in the error
    list.  The response is the 400 with the error list when nothing was
    added and the 200 with both lists otherwise, so the two lists it
    carries have, together, the length of the input. *)
Theorem addNeighbors_one_outcome_per_item (c : string) (cs : item)
    (o : gmap string json) (items : list json) (w : world) :
  CountriesTable w !! c = Some cs ->
  o !! "neighbors" = Some (JArr items) ->
  Forall (fun i => i ≠ JNull) items ->
  ∃ os w',
    Forall2 (outcome_for (CountriesTable w)) items os
    ∧ (additions os = []
       ∧ addNeighbors c (Parsed (JObj o)) w =
           (Return
              (Response 400 (Some [("content-type", "application/json")])
                 (JSON_stringify (Some (obj
                    [("message", JStr "Failed to add neighbors");
                     ("data", obj
                        [("neighbors", JArr []);
                         ("errors", JArr (JStr <$> failures os))])])))),
            w')
       ∨ additions os ≠ []
         ∧ addNeighbors c (Parsed (JObj o)) w =
             (Return
                (Response 200 (Some [("content-type", "application/json")])
                   (JSON_stringify (Some (obj
                      [("message", JStr "Neighbors added successfully");
                       ("data", obj
                          [("neighbors", JArr (JStr <$> additions os))]);
                       ("errors", JArr (JStr <$> failures os))])))),
              w'))
    ∧ (length (additions os) + length (failures os) = length items)%nat.
Proof.
  intros Hc Ho Hitems.
  destruct (addNeighbors_outcomes c cs o items w Hc Ho Hitems)
    as (os & Hos & _ & Hrun).
  exists os, (World (CountriesTable w)
                (pairsOf c (additions os) ∪ CountryNeighborsTable w)
                (v4_calls w)).
  split; [done|]. split.
  - destruct (additions os) eqn:Hadd; [left | right]; (split; [done|]);
      exact Hrun.
  - rewrite outcomes_length. symmetry. by eapply Forall2_length.
Qed.

(** C10 as stated fails: the claim is for every call on an existing
    country, but a [null] among the neighbour data ends the call with 500.
    Here the country [IN] exists and the neighbour data has two items, the
    first of them [null]: the response carries neither an added list nor
    an error list, and nothing has been stored. *)
Lemma addNeighbors_null_item_has_no_outcome :
  let items := [JNull; neighborObj "NP"] in
  CountriesTable twoCountries !! "IN" = Some india
  ∧ length items = 2%nat
  ∧ addNeighbors "IN" (Parsed (obj [("neighbors", JArr items)])) twoCountries
    = (Return
         (Response 500 (Some [("content-type", "application/json")])
            (JSON_stringify (Some (obj
               [("message", JStr "Internal Server Error");
                ("error",
                 JStr "Cannot read properties of null (reading 'neighborId')")])))),
       twoCountries).
Proof. repeat split; reflexivity. Qed.

Lemma get_property_singleton (k : string) (v : json) :
  get_property (obj [(k, v)]) k = ret (Some v).
Proof.
  unfold get_property, obj. f_equal.
  change (list_to_map [(k, v)]) with (<[k := v]> (∅ : gmap string json)).
  apply lookup_insert_eq.
Qed.

Lemma neighborIdOf_neighborObj (x : string) :
  neighborIdOf (neighborObj x) = Some (JStr x).
Proof.
  unfold neighborIdOf, neighborObj, obj.
  change (list_to_map [("neighborId", JStr x)])
    with (<["neighborId" := JStr x]> (∅ : gmap string json)).
  apply lookup_insert_eq.
Qed.

Lemma addNeighbors_no_country (c : string) (b : json) (w : world) :
  b ≠ JNull ->
  CountriesTable w !! c = None ->
  addNeighbors c (Parsed b) w = (Return countryNotFound, w).
Proof.
  intros Hb Hc. unfold addNeighbors, try_catch, bind.
  destruct b; try done; simpl; by rewrite Hc.
Qed.

Lemma addNeighbors_single (c x : string) (cs : item) (w : world) :
  CountriesTable w !! c = Some cs ->
  addNeighbors c (neighborsBody [x]) w =
    match CountriesTable w !! x with
    | None => (Return (failedToAdd [invalidNeighbor (Some (JStr x))]), w)
    | Some _ =>
        if bool_decide ((c, x) ∈ CountryNeighborsTable w)
        then (Return (failedToAdd [alreadyExists x]), w)
        else (Return (addedSuccessfully [x] []),
              World (CountriesTable w)
                    ({[ (c, x) ]} ∪ CountryNeighborsTable w) (v4_calls w))
    end.
Proof.
  intros Hc. destruct w as [tbl S n]; simpl in *.
  unfold addNeighbors, neighborsBody, try_catch.
  unfold bind at 1. unfold JSON_parse, ret at 1.
  unfold bind at 1. rewrite get_property_singleton. unfold ret at 1.
  unfold bind at 1, fetchCountryById at 1. cbn [CountriesTable]. rewrite Hc.
  unfold bind at 1, fetchAllCountryIds at 1. cbn [CountriesTable].
  unfold bind at 1, iterate, ret at 1.
  unfold bind at 1. cbn [fmap list_fmap addNeighbors_loop].
  unfold bind at 1.
  rewrite get_neighborId by done. rewrite neighborIdOf_neighborObj.
  unfold ret at 1. rewrite includes_country_ids.
  destruct (tbl !! x) as [xs|]; [|reflexivity].
  unfold bind at 1, fetchNeighbor at 1. cbn [CountryNeighborsTable].
  case_bool_decide; reflexivity.
Qed.

(** The relation query lists, once each, the neighbours stored for the
    country. *)
Lemma fetchNeighborsByCountryId_spec (c : string) (w : world) :
  ∃ neighbors,
    fetchNeighborsByCountryId c w = (Return neighbors, w)
    ∧ NoDup neighbors
    ∧ ∀ x, x ∈ neighbors ↔ (c, x) ∈ CountryNeighborsTable w.
Proof.
  eexists. split; [reflexivity|]. split.
  - apply NoDup_fmap_2_strong.
    + intros [c1 x1] [c2 x2] H1 H2 Heq.
      apply list_elem_of_filter in H1 as [H1 _].
      apply list_elem_of_filter in H2 as [H2 _].
      simpl in *. congruence.
    + apply NoDup_filter, NoDup_elements.
  - intros x. rewrite list_elem_of_fmap. split.
    + intros [[c' x'] [-> Hin]].
      apply list_elem_of_filter in Hin as [Hc Hin]. simpl in Hc. subst c'.
      by apply elem_of_elements in Hin.
    + intros Hin. exists (c, x). split; [done|].
      apply list_elem_of_filter. split; [done|]. by apply elem_of_elements.
Qed.





(** C2 (amended): the result policy of [addNeighbors] on an existing
    country, for a body whose [neighbors] is an array without [null].  The
    additions are the identifiers whose pair was new and has been put in
    the store, the failures the messages of the other elements.  With no
    addition the response is 400 with the error list and an empty added
    list; otherwise it is 200 with the added list and the errors.  In
    particular a single identifier [x] that the collection does not hold
    gives 400, no addition, one error, and no change of the world. *)
Theorem addNeighbors_result_policy (c : string) (cs : item)
    (o : gmap string json) (items : list json) (x : string) (w : world) :
  CountriesTable w !! c = Some cs ->
  o !! "neighbors" = Some (JArr items) ->
  Forall (fun i => i ≠ JNull) items ->
  CountriesTable w !! x = None ->
  (∃ os w',
     Forall2 (outcome_for (CountriesTable w)) items os
     ∧ CountryNeighborsTable w'
       = pairsOf c (additions os) ∪ CountryNeighborsTable w
     ∧ Forall (fun a => (c, a) ∉ CountryNeighborsTable w) (additions os)
     ∧ (additions os = []
        ∧ addNeighbors c (Parsed (JObj o)) w =
            (Return
               (Response 400 (Some [("content-type", "application/json")])
                  (JSON_stringify (Some (obj
                     [("message", JStr "Failed to add neighbors");
                      ("data", obj
                         [("neighbors", JArr []);
                          ("errors", JArr (JStr <$> failures os))])])))),
             w')
        ∨ additions os ≠ []
          ∧ addNeighbors c (Parsed (JObj o)) w =
              (Return
                 (Response 200 (Some [("content-type", "application/json")])
                    (JSON_stringify (Some (obj
                       [("message", JStr "Neighbors added successfully");
                        ("data", obj
                           [("neighbors", JArr (JStr <$> additions os))]);
                        ("errors", JArr (JStr <$> failures os))])))),
               w')))
  ∧ addNeighbors c (neighborsBody [x]) w =
      (Return
         (Response 400 (Some [("content-type", "application/json")])
            (JSON_stringify (Some (obj
               [("message", JStr "Failed to add neighbors");
                ("data", obj
                   [("neighbors", JArr []);
                    ("errors",
                     JArr [JStr ("Invalid neighbor country ID: " +:+ x)])])])))),
       w).
Proof.
  intros Hc Ho Hitems Hx. split.
  - destruct (addNeighbors_outcomes c cs o items w Hc Ho Hitems)
      as (os & Hos & Hnew & Hrun).
    exists os, (World (CountriesTable w)
                  (pairsOf c (additions os) ∪ CountryNeighborsTable w)
                  (v4_calls w)).
    split; [done|]. split; [reflexivity|]. split; [done|].
    destruct (additions os) eqn:Hadd; [left | right]; (split; [done|]);
      exact Hrun.
  - by rewrite (addNeighbors_single c x cs w Hc), Hx.
Qed.

(** On [IN] with the neighbour data [NP], [XX], [NP]: one addition and two
    errors, answered 200; and [XX] alone: 400 with one error. *)
Lemma addNeighbors_result_policy_witness :
  let items := [neighborObj "NP"; neighborObj "XX"; neighborObj "NP"] in
  let o : gmap string json := list_to_map [("neighbors", JArr items)] in
  ((∃ os w',
      Forall2 (outcome_for (CountriesTable twoCountries)) items os
      ∧ CountryNeighborsTable w'
        = pairsOf "IN" (additions os) ∪ CountryNeighborsTable twoCountries
      ∧ Forall (fun a => ("IN", a) ∉ CountryNeighborsTable twoCountries)
          (additions os)
      ∧ (additions os = []
         ∧ addNeighbors "IN" (Parsed (JObj o)) twoCountries =
             (Return
                (Response 400 (Some [("content-type", "application/json")])
                   (JSON_stringify (Some (obj
                      [("message", JStr "Failed to add neighbors");
                       ("data", obj
                          [("neighbors", JArr []);
                           ("errors", JArr (JStr <$> failures os))])])))),
              w')
         ∨ additions os ≠ []
           ∧ addNeighbors "IN" (Parsed (JObj o)) twoCountries =
               (Return
                  (Response 200 (Some [("content-type", "application/json")])
                     (JSON_stringify (Some (obj
                        [("message", JStr "Neighbors added successfully");
                         ("data", obj
                            [("neighbors", JArr (JStr <$> additions os))]);
                         ("errors", JArr (JStr <$> failures os))])))),
                w')))
   ∧ addNeighbors "IN" (neighborsBody ["XX"]) twoCountries =
       (Return
          (Response 400 (Some [("content-type", "application/json")])
             (JSON_stringify (Some (obj
                [("message", JStr "Failed to add neighbors");
                 ("data", obj
                    [("neighbors", JArr []);
                     ("errors",
                      JArr [JStr ("Invalid neighbor country ID: "
                                  +:+ "XX")])])])))),
        twoCountries))
  ∧ (addNeighbors "IN" (Parsed (JObj o)) twoCountries).1 =
      Return
        (Response 200 (Some [("content-type", "application/json")])
           (JSON_stringify (Some (obj
              [("message", JStr "Neighbors added successfully");
               ("data", obj [("neighbors", JArr [JStr "NP"])]);
               ("errors",
                JArr [JStr "Invalid neighbor country ID: XX";
                      JStr "Neighbor with ID NP already exists for this country"])])))).
Proof.
  intros items o. split.
  - apply (addNeighbors_result_policy "IN" india o items "XX" twoCountries).
    + reflexivity.
    + reflexivity.
    + repeat constructor; discriminate.
    + reflexivity.
  - reflexivity.
Defined.

(** C2 as stated fails: the claim is for every call on an existing
    country, but a call can end with 500, even after an addition.  Here the
    country [IN] exists and the neighbour data is [NP] followed by [null]:
    the pair of [IN] and [NP] is put in the store, and the response is
    neither the 400 nor the 200 of the policy. *)
Lemma addNeighbors_result_policy_not_every_call :
  ¬ (∀ (c : string) (cs : item) (b : json) (w : world),
       CountriesTable w !! c = Some cs ->
       ∃ r w',
         addNeighbors c (Parsed b) w = (Return r, w')
         ∧ (statusCode r = 400
            ∧ CountryNeighborsTable w' = CountryNeighborsTable w
            ∨ statusCode r = 200)).
Proof.
  intros H.
  destruct (H "IN" india
              (obj [("neighbors", JArr [neighborObj "NP"; JNull])])
              twoCountries eq_refl) as (r & w' & Hrun & Hstatus).
  assert (Hr : statusCode r = 500).
  { apply (f_equal (fun x => match x.1 with
                             | Return r => statusCode r
                             | Throw _ => 0
                             end)) in Hrun.
    symmetry. exact Hrun. }
  rewrite Hr in Hstatus. by destruct Hstatus as [[? _]|?].
Qed.

(** C9: a successful [addNeighbors(A, [B])] with [A] and [B] distinct puts
    the pair [(A, B)] in the relation store and nothing else: the pair
    [(B, A)] is stored afterwards only if it was before, and the relation
    query for [B] lists [A] only in that case. *)
Theorem addNeighbors_directed (A B : string) (w w' : world) (r : response) :
  A ≠ B ->
  addNeighbors A (neighborsBody [B]) w = (Return r, w') ->
  statusCode r = 200 ->
  CountryNeighborsTable w' = {[ (A, B) ]} ∪ CountryNeighborsTable w
  ∧ ((B, A) ∈ CountryNeighborsTable w' ↔ (B, A) ∈ CountryNeighborsTable w)
  ∧ ∃ neighbors,
      fetchNeighborsByCountryId B w' = (Return neighbors, w')
      ∧ (A ∈ neighbors ↔ (B, A) ∈ CountryNeighborsTable w).
Proof.
  intros Hne Hrun Hok.
  assert (Hstore :
    CountryNeighborsTable w' = {[ (A, B) ]} ∪ CountryNeighborsTable w).
  { destruct (CountriesTable w !! A) as [cs|] eqn:HA.
    - rewrite (addNeighbors_single A B cs w HA) in Hrun.
      destruct (CountriesTable w !! B).
      + case_bool_decide; injection Hrun as <- <-; [discriminate Hok | done].
      + injection Hrun as <- <-. discriminate Hok.
    - unfold neighborsBody in Hrun.
      rewrite addNeighbors_no_country in Hrun by done.
      injection Hrun as <- <-. discriminate Hok. }
  assert (Hrev : (B, A) ∈ CountryNeighborsTable w'
                 ↔ (B, A) ∈ CountryNeighborsTable w).
  { rewrite Hstore, elem_of_union, elem_of_singleton. split.
    - intros [[= -> _]|H]; [done | exact H].
    - by right. }
  split; [done|]. split; [done|].
  destruct (fetchNeighborsByCountryId_spec B w') as (ns & Hq & _ & Hmem).
  exists ns. split; [done|]. by rewrite Hmem.
Qed.

Lemma addNeighbors_directed_witness :
  CountryNeighborsTable
    (addNeighbors "IN" (neighborsBody ["NP"]) twoCountries).2
  = {[ ("IN", "NP") ]} ∪ CountryNeighborsTable twoCountries
  ∧ (("NP", "IN") ∈ CountryNeighborsTable
       (addNeighbors "IN" (neighborsBody ["NP"]) twoCountries).2
     ↔ ("NP", "IN") ∈ CountryNeighborsTable twoCountries)
  ∧ ∃ neighbors,
      fetchNeighborsByCountryId "NP"
        (addNeighbors "IN" (neighborsBody ["NP"]) twoCountries).2
      = (Return neighbors,
         (addNeighbors "IN" (neighborsBody ["NP"]) twoCountries).2)
      ∧ ("IN" ∈ neighbors
         ↔ ("NP", "IN") ∈ CountryNeighborsTable twoCountries).
Proof.
  apply (addNeighbors_directed "IN" "NP" twoCountries _
           (addedSuccessfully ["NP"] [])).
  - discriminate.
  - reflexivity.
  - reflexivity.
Defined.

(** On [IN] with four items, [NP], [XX], [NP] again and a string: one
    addition and three errors. *)
Lemma addNeighbors_one_outcome_per_item_witness :
  let items := [neighborObj "NP"; neighborObj "XX"; neighborObj "NP";
                JStr "IN"] in
  let o : gmap string json := list_to_map [("neighbors", JArr items)] in
  (∃ os w',
     Forall2 (outcome_for (CountriesTable twoCountries)) items os
     ∧ (additions os = []
        ∧ addNeighbors "IN" (Parsed (JObj o)) twoCountries =
            (Return
               (Response 400 (Some [("content-type", "application/json")])
                  (JSON_stringify (Some (obj
                     [("message", JStr "Failed to add neighbors");
                      ("data", obj
                         [("neighbors", JArr []);
                          ("errors", JArr (JStr <$> failures os))])])))),
             w')
        ∨ additions os ≠ []
          ∧ addNeighbors "IN" (Parsed (JObj o)) twoCountries =
              (Return
                 (Response 200 (Some [("content-type", "application/json")])
                    (JSON_stringify (Some (obj
                       [("message", JStr "Neighbors added successfully");
                        ("data", obj
                           [("neighbors", JArr (JStr <$> additions os))]);
                        ("errors", JArr (JStr <$> failures os))])))),
               w'))
     ∧ (length (additions os) + length (failures os) = length items)%nat)
  ∧ (addNeighbors "IN" (Parsed (JObj o)) twoCountries).1 =
      Return
        (Response 200 (Some [("content-type", "application/json")])
           (JSON_stringify (Some (obj
              [("message", JStr "Neighbors added successfully");
               ("data", obj [("neighbors", JArr [JStr "NP"])]);
               ("errors",
                JArr [JStr "Invalid neighbor country ID: XX";
                      JStr "Neighbor with ID NP already exists for this country";
                      JStr "Invalid neighbor country ID: undefined"])])))).
Proof.
  intros items o. split.
  - apply (addNeighbors_one_outcome_per_item "IN" india o items twoCountries).
    + reflexivity.
    + reflexivity.
    + repeat constructor; discriminate.
  - reflexivity.
Defined.

(** ** Listing *)

Lemma insert_sorted_perm {A} (cmp : A -> A -> Z) (x : A) (l : list A) :
  insert_sorted cmp x l ≡ₚ x :: l.
Proof.
  induction l as [|y l IH]; simpl; [done|].
  destruct (0 <? cmp x y); [|done].
  rewrite IH. apply Permutation_swap.
Qed.

Lemma Array_sort_perm {A} (cmp : A -> A -> Z) (l : list A) :
  Array_sort cmp l ≡ₚ l.
Proof.
  induction l as [|x l IH]; simpl; [done|].
  by rewrite insert_sorted_perm, IH.
Qed.

(** Rounding: exact below 2^53, and beyond every array index from there. *)
Lemma round_exact (z : Z) : Z.abs z < 2 ^ 53 -> JS.round z = JS.Num z.
Proof.
  intros Hz. unfold JS.round. by rewrite (proj2 (Z.ltb_lt _ _) Hz).
Qed.

Lemma round_beyond (z : Z) :
  2 ^ 53 <= z ->
  JS.round z = JS.PInf ∨ ∃ v, JS.round z = JS.Num v ∧ 2 ^ 53 <= v.
Proof.
  intros Hz. unfold JS.round.
  assert (H53 : 2 ^ 53 = 2 ^ 52 * 2) by reflexivity.
  assert (H52 : 0 < 2 ^ 52) by reflexivity.
  rewrite Z.abs_eq by lia.
  rewrite (proj2 (Z.ltb_ge _ _) Hz).
  assert (Hlog : 53 <= Z.log2 z).
  { rewrite <- (Z.log2_pow2 53) by lia. by apply Z.log2_le_mono. }
  set (e := Z.log2 z - 52).
  assert (He : 2 <= 2 ^ e).
  { change 2 with (2 ^ 1) at 1. apply Z.pow_le_mono_r; lia. }
  assert (Hq : 2 ^ 52 <= z / 2 ^ e).
  { apply Z.div_le_lower_bound; [lia|].
    rewrite Z.mul_comm, <- Z.pow_add_r by lia.
    replace (52 + e) with (Z.log2 z) by lia.
    apply Z.log2_spec. lia. }
  cbv zeta. set (q := z / 2 ^ e) in *.
  match goal with
  | |- context [if ?b then q + 1 else q] =>
      set (q' := if b then q + 1 else q);
      assert (Hq' : q <= q') by (unfold q'; destruct b; lia)
  end.
  rewrite (proj2 (Z.ltb_ge z 0)) by lia.
  destruct (2 ^ 1024 <=? q' * 2 ^ e); [by left|].
  right. eexists. split; [done|]. rewrite H53. nia.
Qed.

(** [parseInt] rounds, and overflows from 309 digits on. *)
Lemma parseInt_rounds :
  JS.parseInt "9007199254740993" = JS.Num 9007199254740992
  ∧ JS.parseInt "9007199254740995" = JS.Num 9007199254740996
  ∧ JS.parseInt ("1" +:+ String.concat EmptyString (replicate 309 "0"))
    = JS.PInf.
Proof. repeat split; vm_compute; reflexivity. Qed.

Lemma sub_one (p : Z) : JS.sub (JS.Num p) (JS.Num 1) = JS.round (p - 1).
Proof. reflexivity. Qed.

Lemma mul_round (a l : Z) :
  0 <= a -> 0 < l -> JS.mul (JS.Num a) (JS.Num l) = JS.round (a * l).
Proof.
  intros Ha Hl. unfold JS.mul, JS.is_neg, JS.is_inf, JS.toZ.
  rewrite (proj2 (Z.ltb_ge a 0)), (proj2 (Z.ltb_ge l 0)) by lia.
  cbn [xorb orb]. rewrite !Z.abs_eq by lia.
  destruct (Z.eqb_spec (a * l) 0) as [->|]; done.
Qed.

Lemma slice_beyond {A} (items : list A) (start end_ : JS.number) :
  Z.of_nat (length items) < 2 ^ 53 ->
  start = JS.PInf ∨ (∃ v, start = JS.Num v ∧ 2 ^ 53 <= v) ->
  JS.slice items start end_ = [].
Proof.
  intros Hlen Hstart. unfold JS.slice.
  assert (Hk : JS.relative_index (length items) start = length items).
  { destruct Hstart as [->|(v & -> & Hv)]; [done|]. unfold JS.relative_index.
    rewrite (proj2 (Z.ltb_ge v 0)) by lia. rewrite Z.min_r by lia.
    apply Nat2Z.id. }
  rewrite Hk, drop_all. apply take_nil.
Qed.

Lemma pageWindow_beyond {A} (items : list A) (p l : Z) :
  Z.of_nat (length items) < 2 ^ 53 -> 2 ^ 53 <= (p - 1) * l ->
  pageWindow items p l = [].
Proof.
  intros Hlen Hskip. unfold pageWindow. rewrite drop_ge by lia. apply take_nil.
Qed.

Lemma slice_window {A} (items : list A) (a l : Z) :
  Z.of_nat (length items) < 2 ^ 53 -> 0 <= a < 2 ^ 53 -> 0 < l ->
  JS.slice items (JS.Num a) (JS.add (JS.Num a) (JS.Num l))
  = take (Z.to_nat l) (drop (Z.to_nat a) items).
Proof.
  intros Hlen Ha Hl.
  change (JS.add (JS.Num a) (JS.Num l)) with (JS.round (a + l)).
  unfold JS.slice.
  assert (Hk : JS.relative_index (length items) (JS.Num a)
               = Z.to_nat (Z.min a (Z.of_nat (length items)))).
  { unfold JS.relative_index. by rewrite (proj2 (Z.ltb_ge a 0)) by lia. }
  rewrite Hk.
  assert (Hfinal : JS.relative_index (length items) (JS.round (a + l))
                   = Z.to_nat (Z.min (a + l) (Z.of_nat (length items)))).
  { destruct (Z.lt_ge_cases (a + l) (2 ^ 53)) as [Hsmall|Hbig].
    - rewrite round_exact by lia. unfold JS.relative_index.
      by rewrite (proj2 (Z.ltb_ge (a + l) 0)) by lia.
    - rewrite (Z.min_r (a + l)) by lia.
      destruct (round_beyond _ Hbig) as [->|(v & -> & Hv)];
        [by rewrite Nat2Z.id|].
      unfold JS.relative_index.
      rewrite (proj2 (Z.ltb_ge v 0)) by lia. by rewrite Z.min_r by lia. }
  rewrite Hfinal.
  destruct (Z.le_gt_cases (Z.of_nat (length items)) a) as [Hge|Hlt].
  - rewrite !Z.min_r by lia. rewrite Nat.sub_diag.
    rewrite (drop_ge items (Z.to_nat a)) by lia.
    by rewrite take_0, take_nil.
  - rewrite (Z.min_l a) by lia.
    destruct (Z.le_gt_cases (a + l) (Z.of_nat (length items))) as [Hin|Hout].
    + rewrite Z.min_l by lia. f_equal. lia.
    + rewrite Z.min_r by lia. rewrite Nat2Z.id.
      rewrite !take_ge; [done| |]; rewrite length_drop; lia.
Qed.

(** The slice of the handler is the window of the page: where [skip] or
    [skip + limit] is not exact, it is beyond the end of the array. *)
Lemma slice_page {A} (items : list A) (p l : Z) :
  Z.of_nat (length items) < 2 ^ 53 -> 0 < p -> 0 < l ->
  let skip := JS.mul (JS.sub (JS.Num p) (JS.Num 1)) (JS.Num l) in
  JS.slice items skip (JS.add skip (JS.Num l)) = pageWindow items p l.
Proof.
  intros Hlen Hp Hl skip. subst skip. rewrite sub_one.
  destruct (Z.lt_ge_cases (p - 1) (2 ^ 53)) as [Hsmall|Hbig].
  - rewrite round_exact by lia. rewrite mul_round by lia.
    destruct (Z.lt_ge_cases ((p - 1) * l) (2 ^ 53)) as [Hsmall'|Hbig'].
    + assert (0 <= (p - 1) * l) by nia.
      rewrite round_exact by lia. apply slice_window; [done|lia|done].
    + rewrite pageWindow_beyond by done. apply slice_beyond; [done|].
      by apply round_beyond.
  - rewrite pageWindow_beyond by nia. apply slice_beyond; [done|].
    destruct (round_beyond _ Hbig) as [->|(v & -> & Hv)].
    + left. by destruct l.
    + rewrite mul_round by lia. apply round_beyond. nia.
Qed.

Lemma ceil_div_pos (n : nat) (l : Z) :
  0 < l ->
  JS.Math_ceil_div n (JS.Num l) = JS.Num ((Z.of_nat n + l - 1) / l).
Proof.
  intros Hl. unfold JS.Math_ceil_div.
  destruct l as [|l|l]; try lia. reflexivity.
Qed.

Lemma ceil_div_bounds (t l : Z) :
  0 < l -> l * ((t + l - 1) / l - 1) < t <= l * ((t + l - 1) / l).
Proof.
  intros Hl.
  pose proof (Z.div_mod (t + l - 1) l ltac:(lia)) as Hdm.
  pose proof (Z.mod_pos_bound (t + l - 1) l Hl) as Hm.
  lia.
Qed.

Lemma ltb_bool_decide (a b : Z) : (a <? b) = bool_decide (a < b).
Proof.
  destruct (Z.ltb_spec a b).
  - by rewrite bool_decide_eq_true_2.
  - rewrite bool_decide_eq_false_2; [done|lia].
Qed.

(** The run of the listing handler on a page and a limit that parse to
    positive integers, for a scan of fewer than 2^32 records. *)
Lemma getAllCountriesPaginated_page
    (RegExp_source : string -> option string)
    (lessThan : option json -> option json -> bool)
    (qs : option (gmap string string)) (w w' : world)
    (filtered : list item) (p l : Z) :
  let q := default ∅ qs in
  let criteria := sortCriteria (default "a_to_z" (q !! "sort_by")) in
  let sorted :=
    Array_sort (compareFn lessThan criteria.1 criteria.2) filtered in
  let total := length filtered in
  let pages := (Z.of_nat total + l - 1) / l in
  JS.parseInt (default "1" (q !! "page")) = JS.Num p -> 0 < p ->
  JS.parseInt (default "10" (q !! "limit")) = JS.Num l -> 0 < l ->
  scanCountries RegExp_source (q !! "search") w = (Return filtered, w') ->
  Z.of_nat total < 2 ^ 32 ->
  getAllCountriesPaginated RegExp_source lessThan qs w =
    (Return (envelope (pageWindow sorted p l) (bool_decide (p < pages))
               (bool_decide (1 < p)) p pages l total), w').
Proof.
  intros q criteria sorted total pages Hpage Hp Hlimit Hl Hscan Htotal.
  assert (Hlen : length sorted = total)
    by (unfold sorted, total; by rewrite Array_sort_perm).
  unfold getAllCountriesPaginated, try_catch, bind.
  fold q. rewrite Hpage, Hlimit.
  fold criteria. destruct criteria as [sortKey sortDirection] eqn:Hcrit.
  rewrite Hscan. unfold ret. cbn [fst snd] in sorted. fold sorted.
  rewrite slice_page; [|rewrite Hlen; transitivity (2 ^ 32); done|done|done].
  rewrite Hlen, ceil_div_pos by done. fold pages.
  unfold JS.gt, JS.lt, JS.toZ. by rewrite !ltb_bool_decide.
Qed.



(** A [limit] of 310 digits is no integer for the handler: [parseInt]
    gives [Infinity], so that [skip] is [NaN], the list is empty, [pages]
    is 0 and [per_page] is written [null]. *)
Lemma getAllCountriesPaginated_limit_overflow :
  let limit := "1" +:+ String.concat EmptyString (replicate 309 "0") in
  getAllCountriesPaginated Some lessThan_typed
    (Some {["limit" := limit]}) twoCountries
  = (Return (countryList [] false false (JS.Num 1) (JS.Num 0) JS.PInf 2),
     twoCountries)
  ∧ JS.number_to_json JS.PInf = JNull.
Proof. split; reflexivity. Qed.

(** [getAllCountriesPaginated] has two responses only, 200 and 500, and
    answers 200 whenever the scan succeeds, whatever [page] and [limit]
    hold. *)
Lemma getAllCountriesPaginated_status
    (RegExp_source : string -> option string)
    (lessThan : option json -> option json -> bool)
    (qs : option (gmap string string)) (w : world) :
  ∃ r w',
    getAllCountriesPaginated RegExp_source lessThan qs w = (Return r, w')
    ∧ (statusCode r = 200 ∨ statusCode r = 500)
    ∧ ((∃ Items, scanCountries RegExp_source (default ∅ qs !! "search") w
                 = (Return Items, w)) ->
       statusCode r = 200).
Proof.
  unfold getAllCountriesPaginated, try_catch, bind.
  destruct (sortCriteria _) as [sortKey sortDirection].
  destruct (scanCountries _ _ w) as [[Items|e] w1] eqn:Hscan.
  - eexists _, _. split; [reflexivity|]. split; [by left|done].
  - eexists _, _. split; [reflexivity|]. split; [by right|].
    intros [Items [=]].
Qed.

(** C8 (as the code behaves): a [page] that is not numeric, here [abc], is
    not rejected with 400: the response is 200 with an empty list and a
    [page] that is [NaN], written [null] in the body.  A [limit] of [0] is
    not rejected either: 200, an empty list, [pages] infinite and so
    [null], [has_next] true. *)
Theorem getAllCountriesPaginated_non_numeric_page_200 :
  JS.parseInt "abc" = JS.NaN
  ∧ getAllCountriesPaginated Some lessThan_typed
      (Some {["page" := "abc"]}) twoCountries
    = (Return (countryList [] false false JS.NaN (JS.Num 1) (JS.Num 10) 2),
       twoCountries)
  ∧ statusCode (countryList [] false false JS.NaN (JS.Num 1) (JS.Num 10) 2)
    = 200
  ∧ JS.number_to_json JS.NaN = JNull
  ∧ getAllCountriesPaginated Some lessThan_typed
      (Some {["limit" := "0"]}) twoCountries
    = (Return (countryList [] true false (JS.Num 1) JS.PInf (JS.Num 0) 2),
       twoCountries)
  ∧ JS.number_to_json JS.PInf = JNull.
Proof. repeat split; reflexivity. Qed.

(** * Further properties *)

(** ** The neighbour relation, for every request body *)

Lemma pairsOf_nil (c : string) (S : gset (string * string)) :
  pairsOf c [] ∪ S = S.
Proof. unfold pairsOf; simpl. by rewrite (left_id_L ∅ (∪)). Qed.

Lemma pairsOf_step (c s : string) (added : list string)
    (S : gset (string * string)) :
  pairsOf c added ∪ ({[ (c, s) ]} ∪ S) = pairsOf c (s :: added) ∪ S.
Proof.
  rewrite pairsOf_cons, (assoc_L (∪)). f_equal. apply (comm_L (∪)).
Qed.

(** The loop on any neighbour data: it returns the two lists, or it throws
    at a [null] element; either way the identifiers [added] that it has
    put in the store are distinct, were not related to [c] before, and are
    identifiers of the collection. *)
Lemma addNeighbors_loop_any (c : string) (tbl : gmap string item)
    (items : list json) :
  ∀ (errs adds : list string) (S : gset (string * string)) (n : nat),
  ∃ o added,
    addNeighbors_loop c (map_to_list tbl).*1 items errs adds (World tbl S n)
    = (o, World tbl (pairsOf c added ∪ S) n)
    ∧ NoDup added
    ∧ Forall (fun a => ((c, a) ∉ S) ∧ is_Some (tbl !! a)) added
    ∧ match o with
      | Return (errs', adds') =>
          adds' = adds ++ added
          ∧ ∃ failed, errs' = errs ++ failed
                      ∧ (length added + length failed = length items)%nat
      | Throw e => e = TypeError nullNeighbor ∧ JNull ∈ items
      end.
Proof.
  induction items as [|i items IH]; intros errs adds S n.
  - exists (Return (errs, adds)), []. rewrite pairsOf_nil.
    split; [done|]. split; [constructor|]. split; [constructor|].
    split; [by rewrite app_nil_r|]. exists []. by rewrite app_nil_r.
  - assert (i = JNull ∨ i ≠ JNull) as [->|Hi]
      by (destruct i; auto).
    { exists (Throw (TypeError nullNeighbor)), []. rewrite pairsOf_nil.
      split; [done|]. split; [constructor|]. split; [constructor|].
      split; [done|]. apply elem_of_cons. by left. }
    simpl. rewrite (get_neighborId _ Hi). unfold bind at 1, ret at 1.
    rewrite includes_country_ids.
    assert (Hfail : ∀ m,
      ∃ o added,
        addNeighbors_loop c (map_to_list tbl).*1 items (errs ++ [m]) adds
          (World tbl S n) = (o, World tbl (pairsOf c added ∪ S) n)
        ∧ NoDup added
        ∧ Forall (fun a => ((c, a) ∉ S) ∧ is_Some (tbl !! a)) added
        ∧ match o with
          | Return (errs', adds') =>
              adds' = adds ++ added
              ∧ ∃ failed, errs' = errs ++ failed
                  ∧ (length added + length failed
                     = length (i :: items))%nat
          | Throw e => e = TypeError nullNeighbor ∧ JNull ∈ i :: items
          end).
    { intros m.
      destruct (IH (errs ++ [m]) adds S n) as (o & added & Hrun & Hnd & Hnew & Ho).
      exists o, added. split; [done|]. split; [done|]. split; [done|].
      destruct o as [[errs' adds']|e].
      - destruct Ho as (-> & failed & -> & Hlen). split; [done|].
        exists (m :: failed). rewrite <- app_assoc. split; [done|].
        simpl. lia.
      - destruct Ho as [-> Hin]. split; [done|]. apply elem_of_cons. by right. }
    destruct (neighborIdOf i) as [[| | |s| |]|]; try apply Hfail.
    destruct (tbl !! s) as [cs|] eqn:Hs; [|apply Hfail].
    unfold bind at 1, fetchNeighbor at 1. cbn [CountryNeighborsTable].
    case_bool_decide as Hin; [apply Hfail|].
    unfold bind at 1, addNeighbor at 1.
    cbn [CountriesTable CountryNeighborsTable v4_calls].
    destruct (IH errs (adds ++ [s]) ({[ (c, s) ]} ∪ S) n)
      as (o & added & Hrun & Hnd & Hnew & Ho).
    exists o, (s :: added). rewrite Hrun, pairsOf_step.
    split; [done|]. split; [|split].
    + constructor; [|done]. intros Hs'.
      eapply Forall_forall in Hnew as [Hnew _]; [|exact Hs'].
      apply Hnew, elem_of_union_l. by apply elem_of_singleton.
    + constructor; [by rewrite Hs|].
      eapply Forall_impl; [exact Hnew|]. intros a [Ha Hex]. split; [|done].
      intros Ha'. apply Ha, elem_of_union_r, Ha'.
    + destruct o as [[errs' adds']|e].
      * destruct Ho as (-> & failed & -> & Hlen).
        split; [by rewrite <- app_assoc|]. exists failed. split; [done|].
        simpl. lia.
      * destruct Ho as [-> Hin']. split; [done|]. apply elem_of_cons. by right.
Qed.

(** Every run of [addNeighbors]: the handler answers, the country
    collection and the identifier counter are left alone, and the store
    gains the pairs of [c] with the identifiers [added], which are exactly
    the ones a 200 response lists. *)
Lemma addNeighbors_any (c : string) (b : parsed) (w : world) :
  ∃ r added,
    addNeighbors c b w
    = (Return r,
       World (CountriesTable w)
             (pairsOf c added ∪ CountryNeighborsTable w) (v4_calls w))
    ∧ NoDup added
    ∧ Forall (fun a => ((c, a) ∉ CountryNeighborsTable w)
                       ∧ is_Some (CountriesTable w !! a)) added
    ∧ (added ≠ [] -> is_Some (CountriesTable w !! c))
    ∧ (r = countryNotFound ∧ added = []
       ∨ (∃ errors, r = failedToAdd errors ∧ added = [])
       ∨ (∃ errors, r = addedSuccessfully added errors ∧ added ≠ [])
       ∨ (∃ m, r = typeError500 m)).
Proof.
  destruct w as [tbl S n]. cbn [CountriesTable CountryNeighborsTable v4_calls].
  assert (Hstop : ∀ r,
    (r = countryNotFound ∨ ∃ m, r = typeError500 m) ->
    ∃ r' added,
      (Return r, World tbl S n)
      = (Return r', World tbl (pairsOf c added ∪ S) n)
      ∧ NoDup added
      ∧ Forall (fun a => ((c, a) ∉ S) ∧ is_Some (tbl !! a)) added
      ∧ (added ≠ [] -> is_Some (tbl !! c))
      ∧ (r' = countryNotFound ∧ added = []
         ∨ (∃ errors, r' = failedToAdd errors ∧ added = [])
         ∨ (∃ errors, r' = addedSuccessfully added errors ∧ added ≠ [])
         ∨ (∃ m, r' = typeError500 m))).
  { intros r Hr. exists r, []. rewrite pairsOf_nil.
    split; [done|]. split; [constructor|]. split; [constructor|].
    split; [done|]. destruct Hr as [->|[m ->]]; [by left|].
    right. right. right. by exists m. }
  destruct b as [v|m]; [|apply Hstop; right; by eexists].
  unfold addNeighbors, try_catch. unfold bind at 1, JSON_parse, ret at 1.
  destruct v as [| | | | |o];
    try (apply Hstop; right; by eexists);
    try (unfold bind at 1, get_property, ret at 1;
         unfold bind at 1, fetchCountryById at 1; cbn [CountriesTable];
         destruct (tbl !! c);
         [apply Hstop; right; by eexists | apply Hstop; by left]).
  unfold bind at 1, get_property, ret at 1.
  unfold bind at 1, fetchCountryById at 1. cbn [CountriesTable].
  destruct (tbl !! c) as [cs|] eqn:Hc; [|apply Hstop; by left].
  unfold bind at 1, fetchAllCountryIds at 1. cbn [CountriesTable].
  assert (Hloop : ∀ items,
    ∃ r added,
      (let (o, w') :=
         (let* (errors, successfulAdditions) :=
            addNeighbors_loop c (map_to_list tbl).*1 items [] [] in
          if (length successfulAdditions =? 0)%nat
          then ret (failedToAdd errors)
          else ret (addedSuccessfully successfulAdditions errors))
           (World tbl S n) in
       match o with
       | Return a => (Return a, w')
       | Throw e => internalServerError e w'
       end)
      = (Return r, World tbl (pairsOf c added ∪ S) n)
      ∧ NoDup added
      ∧ Forall (fun a => ((c, a) ∉ S) ∧ is_Some (tbl !! a)) added
      ∧ (added ≠ [] -> is_Some (Some cs))
      ∧ (r = countryNotFound ∧ added = []
         ∨ (∃ errors, r = failedToAdd errors ∧ added = [])
         ∨ (∃ errors, r = addedSuccessfully added errors ∧ added ≠ [])
         ∨ (∃ m, r = typeError500 m))).
  { intros items.
    destruct (addNeighbors_loop_any c tbl items [] [] S n)
      as (res & added & Hrun & Hnd & Hnew & Ho).
    unfold bind. rewrite Hrun.
    destruct res as [[errs' adds']|e].
    - destruct Ho as (-> & failed & -> & _). simpl.
      destruct added as [|a added]; simpl.
      + eexists _, []. split; [reflexivity|]. split; [done|]. split; [done|].
        split; [done|]. right. left. by eexists.
      + eexists _, (a :: added). split; [reflexivity|]. split; [done|].
        split; [done|]. split; [done|].
        right. right. left. by eexists.
    - eexists _, added. split; [reflexivity|]. split; [done|].
      split; [done|]. split; [done|].
      right. right. right. by eexists. }
  destruct (o !! "neighbors") as [[| | |s|l|]|];
    try (apply Hstop; right; by eexists).
  - apply (Hloop (JStr <$> JS.chars s)).
  - apply (Hloop l).
Qed.

(** X1: whatever the request, [addNeighbors] answers (it never rejects),
    leaves the country collection alone, removes no relation, and every
    pair it adds is a pair of the country of the request, which exists,
    with a country that exists. *)
Theorem addNeighbors_adds_only_valid_pairs (c : string) (b : parsed)
    (w : world) :
  ∃ r w',
    addNeighbors c b w = (Return r, w')
    ∧ CountriesTable w' = CountriesTable w
    ∧ v4_calls w' = v4_calls w
    ∧ CountryNeighborsTable w ⊆ CountryNeighborsTable w'
    ∧ ∀ a x : string,
        (a, x) ∈ CountryNeighborsTable w' ->
        (a, x) ∈ CountryNeighborsTable w
        ∨ a = c ∧ is_Some (CountriesTable w !! c)
          ∧ is_Some (CountriesTable w !! x).
Proof.
  destruct (addNeighbors_any c b w) as (r & added & Hrun & _ & Hnew & Hc & _).
  eexists _, _. split; [exact Hrun|]. cbn.
  split; [done|]. split; [done|]. split; [apply union_subseteq_r|].
  intros a x [Hin|Hin]%elem_of_union; [|by left]. right.
  apply elem_of_list_to_set, list_elem_of_fmap in Hin as (y & [= -> ->] & Hy).
  split; [done|]. split.
  - apply Hc. intros ->. by apply elem_of_nil in Hy.
  - eapply Forall_forall in Hnew as [_ Hx]; [exact Hx | exact Hy].
Qed.

Lemma addedSuccessfully_inj (added added' errors errors' : list string) :
  addedSuccessfully added errors = addedSuccessfully added' errors' ->
  added = added'.
Proof.
  intros Heq.
  apply (f_equal (fun r =>
    match body r with
    | JSON_stringify (Some (JObj o)) =>
        match o !! "data" with
        | Some (JObj d) => d !! "neighbors"
        | _ => None
        end
    | _ => None
    end)) in Heq.
  change (Some (JArr (JStr <$> added)) = Some (JArr (JStr <$> added'))) in Heq.
  injection Heq as Heq.
  revert added' Heq. induction added as [|a added IH]; intros [|a' added'] Heq;
    try done.
  injection Heq as -> Heq. f_equal. by apply IH.
Qed.

(** X2: the added list of a 200 response never repeats an identifier, even
    when the request does; each identifier in it was not a neighbour of the
    country before the call and is one after it. *)
Theorem addNeighbors_added_distinct (c : string) (b : parsed) (w w' : world)
    (added errors : list string) :
  addNeighbors c b w = (Return (addedSuccessfully added errors), w') ->
  NoDup added
  ∧ ∀ a, a ∈ added ->
      ((c, a) ∉ CountryNeighborsTable w) ∧ (c, a) ∈ CountryNeighborsTable w'.
Proof.
  intros Hrun.
  destruct (addNeighbors_any c b w) as (r & added0 & Hrun0 & Hnd & Hnew & _ & Hr).
  rewrite Hrun in Hrun0. injection Hrun0 as <- ->.
  assert (added = added0) as <-.
  { destruct Hr as [[Hr _]|[[es [Hr _]]|[[es [Hr _]]|[m Hr]]]];
      try (apply (f_equal statusCode) in Hr; discriminate Hr).
    by eapply addedSuccessfully_inj. }
  split; [done|]. intros a Ha. split.
  - eapply Forall_forall in Hnew as [Hnew _]; [exact Hnew | exact Ha].
  - apply elem_of_union_l, elem_of_list_to_set, list_elem_of_fmap. by exists a.
Qed.

Lemma addNeighbors_added_distinct_witness :
  NoDup ["NP"]
  ∧ ∀ a, a ∈ ["NP"] ->
      (("IN", a) ∉ CountryNeighborsTable twoCountries)
      ∧ ("IN", a) ∈ CountryNeighborsTable
          (addNeighbors "IN" (neighborsBody ["NP"; "XX"; "NP"])
             twoCountries).2.
Proof.
  apply (addNeighbors_added_distinct "IN"
           (neighborsBody ["NP"; "XX"; "NP"]) twoCountries _ ["NP"]
           [invalidNeighbor (Some (JStr "XX")); alreadyExists "NP"]).
  reflexivity.
Defined.

Lemma addNeighbors_loop_app (c : string) (ids : list string)
    (l1 l2 : list json) :
  ∀ (errs adds : list string) (w : world),
  addNeighbors_loop c ids (l1 ++ l2) errs adds w =
    match addNeighbors_loop c ids l1 errs adds w with
    | (Return (errs', adds'), w') => addNeighbors_loop c ids l2 errs' adds' w'
    | (Throw e, w') => (Throw e, w')
    end.
Proof.
  induction l1 as [|i l1 IH]; intros errs adds w; [done|].
  cbn [app addNeighbors_loop]. unfold bind, fetchNeighbor, addNeighbor.
  destruct (get_property i "neighborId" w) as [[v|e] w1]; [|done].
  destruct (includes ids v) as [id|]; [|apply IH].
  case_bool_decide; apply IH.
Qed.

(** The loop on identifiers of the collection that are distinct and not
    yet neighbours of [c]: each is added. *)
Lemma addNeighbors_loop_fresh (c : string) (tbl : gmap string item)
    (ids : list string) :
  NoDup ids ->
  ∀ (errs adds : list string) (S : gset (string * string)) (n : nat),
  Forall (fun x => is_Some (tbl !! x) ∧ (c, x) ∉ S) ids ->
  addNeighbors_loop c (map_to_list tbl).*1 (neighborObj <$> ids) errs adds
    (World tbl S n)
  = (Return (errs, adds ++ ids), World tbl (pairsOf c ids ∪ S) n).
Proof.
  induction 1 as [|x ids Hx Hnd IH]; intros errs adds S n Hids.
  - cbn [fmap list_fmap addNeighbors_loop]. unfold ret.
    by rewrite app_nil_r, pairsOf_nil.
  - apply Forall_cons in Hids as [[[xs Hxs] Hnew] Hids].
    cbn [fmap list_fmap addNeighbors_loop].
    rewrite get_neighborId by done. rewrite neighborIdOf_neighborObj.
    unfold bind at 1, ret at 1. rewrite includes_country_ids, Hxs.
    unfold bind at 1, fetchNeighbor at 1. cbn [CountryNeighborsTable].
    rewrite bool_decide_eq_false_2 by done.
    unfold bind at 1, addNeighbor at 1.
    cbn [CountriesTable CountryNeighborsTable v4_calls].
    rewrite IH.
    + by rewrite <- app_assoc, pairsOf_step.
    + apply Forall_forall. intros y Hy.
      eapply Forall_forall in Hids as [Hys Hny]; [|exact Hy].
      split; [done|].
      intros [[= ->]%elem_of_singleton|Hin]%elem_of_union; done.
Qed.

(** X3: a [null] among the neighbour data stops the request with 500, but
    the neighbours that stand before it have been processed.  When these
    are distinct countries of the collection that were not neighbours
    before, each of them is one afterwards: their pairs are in the store,
    although the response reports no addition. *)
Theorem addNeighbors_keeps_writes_before_null (c : string) (cs : item)
    (o : gmap string json) (ids : list string) (rest : list json)
    (w : world) :
  CountriesTable w !! c = Some cs ->
  o !! "neighbors" = Some (JArr ((neighborObj <$> ids) ++ JNull :: rest)) ->
  NoDup ids ->
  Forall (fun x => is_Some (CountriesTable w !! x)
                   ∧ (c, x) ∉ CountryNeighborsTable w) ids ->
  let run := addNeighbors c (Parsed (JObj o)) w in
  run.1 = Return (typeError500 nullNeighbor)
  ∧ CountriesTable run.2 = CountriesTable w
  ∧ CountryNeighborsTable run.2 = pairsOf c ids ∪ CountryNeighborsTable w
  ∧ ∀ x, x ∈ ids -> (c, x) ∈ CountryNeighborsTable run.2.
Proof.
  intros Hc Ho Hnd Hids run. destruct w as [tbl S n].
  cbn [CountriesTable CountryNeighborsTable v4_calls] in *.
  assert (Hrun : run = (Return (typeError500 nullNeighbor),
                        World tbl (pairsOf c ids ∪ S) n)).
  { unfold run, addNeighbors, try_catch.
    unfold bind at 1, JSON_parse, ret at 1.
    unfold bind at 1, get_property, ret at 1. rewrite Ho.
    unfold bind at 1, fetchCountryById at 1. cbn [CountriesTable]. rewrite Hc.
    unfold bind at 1, fetchAllCountryIds at 1. cbn [CountriesTable].
    unfold bind at 1, iterate, ret at 1. unfold bind at 1.
    by rewrite addNeighbors_loop_app, (addNeighbors_loop_fresh c tbl ids Hnd). }
  rewrite Hrun. cbn [fst snd CountriesTable CountryNeighborsTable].
  split; [done|]. split; [done|]. split; [done|].
  intros x Hx. apply elem_of_union_l, elem_of_list_to_set, list_elem_of_fmap.
  by exists x.
Qed.

Lemma addNeighbors_keeps_writes_before_null_witness :
  let run :=
    addNeighbors "IN"
      (Parsed (JObj (list_to_map
         [("neighbors",
           JArr ((neighborObj <$> ["NP"]) ++ JNull :: [neighborObj "XX"]))])))
      twoCountries in
  run.1 = Return (typeError500 nullNeighbor)
  ∧ CountriesTable run.2 = CountriesTable twoCountries
  ∧ CountryNeighborsTable run.2
    = pairsOf "IN" ["NP"] ∪ CountryNeighborsTable twoCountries
  ∧ ∀ x, x ∈ ["NP"] -> ("IN", x) ∈ CountryNeighborsTable run.2.
Proof.
  apply (addNeighbors_keeps_writes_before_null "IN" india
           (list_to_map
              [("neighbors",
                JArr ((neighborObj <$> ["NP"]) ++ JNull :: [neighborObj "XX"]))])
           ["NP"] [neighborObj "XX"] twoCountries).
  - reflexivity.
  - reflexivity.
  - apply NoDup_singleton.
  - constructor; [|constructor]. split; [by eexists|].
    apply not_elem_of_empty.
Defined.



(** X5: degenerate neighbour data on an existing country.  An empty array
    is answered 400 with an empty error list; a body without [neighbors],
    or with one that is neither an array nor a string, is answered 500.
    Nothing is written. *)
Theorem addNeighbors_degenerate_data (c : string) (cs : item)
    (o o' : gmap string json) (w : world) :
  CountriesTable w !! c = Some cs ->
  o !! "neighbors" = Some (JArr []) ->
  match o' !! "neighbors" with
  | Some (JArr _) | Some (JStr _) => False
  | _ => True
  end ->
  addNeighbors c (Parsed (JObj o)) w
  = (Return
       (Response 400 (Some [("content-type", "application/json")])
          (JSON_stringify (Some (obj
             [("message", JStr "Failed to add neighbors");
              ("data", obj [("neighbors", JArr []);
                            ("errors", JArr [])])])))), w)
  ∧ addNeighbors c (Parsed (JObj o')) w
    = (Return (typeError500 "neighborData is not iterable"), w).
Proof.
  intros Hc Ho Ho'. destruct w as [tbl S n]. cbn [CountriesTable] in Hc.
  assert (Hstart : ∀ o0 : gmap string json,
    addNeighbors c (Parsed (JObj o0)) (World tbl S n) =
    (let (res, w') :=
       (let* items := iterate "neighborData" (o0 !! "neighbors") in
        let* (errors, successfulAdditions) :=
          addNeighbors_loop c (map_to_list tbl).*1 items [] [] in
        if (length successfulAdditions =? 0)%nat then ret (failedToAdd errors)
        else ret (addedSuccessfully successfulAdditions errors))
         (World tbl S n) in
     match res with
     | Return a => (Return a, w')
     | Throw e => internalServerError e w'
     end)).
  { intros o0.
    unfold addNeighbors, try_catch. unfold bind at 1, JSON_parse, ret at 1.
    unfold bind at 1, get_property, ret at 1.
    unfold bind at 1, fetchCountryById at 1. cbn [CountriesTable]. rewrite Hc.
    unfold bind at 1, fetchAllCountryIds at 1. by cbn [CountriesTable]. }
  rewrite !Hstart. split.
  - by rewrite Ho.
  - by destruct (o' !! "neighbors") as [[| | | | |]|].
Qed.

Lemma addNeighbors_degenerate_data_witness :
  addNeighbors "IN" (Parsed (JObj (list_to_map [("neighbors", JArr [])])))
    twoCountries
  = (Return
       (Response 400 (Some [("content-type", "application/json")])
          (JSON_stringify (Some (obj
             [("message", JStr "Failed to add neighbors");
              ("data", obj [("neighbors", JArr []);
                            ("errors", JArr [])])])))), twoCountries)
  ∧ addNeighbors "IN" (Parsed (JObj (list_to_map [("name", JStr "Nepal")])))
      twoCountries
    = (Return (typeError500 "neighborData is not iterable"), twoCountries).
Proof.
  apply (addNeighbors_degenerate_data "IN" india
           (list_to_map [("neighbors", JArr [])])
           (list_to_map [("name", JStr "Nepal")]) twoCountries).
  - reflexivity.
  - reflexivity.
  - exact I.
Defined.

(** ** The neighbour listing *)


Lemma mapM_fetch_missing (ns : list string) (x : string) (w : world) :
  x ∈ ns -> CountriesTable w !! x = None ->
  mapM fetchPublic ns w = (Throw (TypeError undefinedNeighbor), w).
Proof.
  intros Hin Hx. induction ns as [|y ns IH]; [by apply elem_of_nil in Hin|].
  cbn [mapM]. unfold bind at 1. unfold fetchPublic at 1.
  unfold bind at 1, fetchCountryById at 1.
  destruct (CountriesTable w !! y) as [n|] eqn:Hy; [|done].
  unfold ret at 1. unfold bind at 1. rewrite IH; [done|].
  apply elem_of_cons in Hin as [->|Hin]; [congruence|done].
Qed.

Lemma getCountryNeighbors_unfold (c : string) (w : world) :
  getCountryNeighbors c w =
    match CountriesTable w !! c with
    | None => (Return countryNotFound, w)
    | Some _ =>
        let neighbors :=
          (filter (fun p => p.1 = c) (elements (CountryNeighborsTable w))).*2 in
        match neighbors with
        | [] => (Return (countryNeighbours []), w)
        | _ =>
            match mapM fetchPublic neighbors w with
            | (Return neighborCountries, w') =>
                (Return (countryNeighbours neighborCountries), w')
            | (Throw e, w') => internalServerError e w'
            end
        end
    end.
Proof.
  unfold getCountryNeighbors, try_catch.
  unfold bind at 1, fetchCountryById at 1.
  destruct (CountriesTable w !! c); [|done].
  unfold bind at 1, fetchNeighborsByCountryId at 1.
  destruct ((filter _ _).*2) as [|x ns] eqn:Hns; [done|].
  cbn [length Nat.eqb]. unfold bind at 1.
  change (mapM _ (x :: ns) w) with (mapM fetchPublic (x :: ns) w).
  by destruct (mapM fetchPublic (x :: ns) w) as [[js|e] w'].
Qed.





(** X7: deleting a country does not delete the relations that mention it.
    If [c] lists [x] as a neighbour and [x] is deleted, the pair stays in
    the store and [getCountryNeighbors] of [c] fails from then on with
    500. *)
Theorem deleteCountry_leaves_relations (c x : string) (cs : item)
    (w : world) :
  CountriesTable w !! c = Some cs ->
  (c, x) ∈ CountryNeighborsTable w ->
  c ≠ x ->
  let w' := (deleteCountry x w).2 in
  CountryNeighborsTable w' = CountryNeighborsTable w
  ∧ CountriesTable w' !! x = None
  ∧ getCountryNeighbors c w' = (Return (typeError500 undefinedNeighbor), w').
Proof.
  intros Hc Hin Hne w'. subst w'. rewrite deleteCountry_always_204.
  cbn [snd]. split; [done|]. split; [apply lookup_delete_eq|].
  rewrite getCountryNeighbors_unfold. cbn [CountriesTable CountryNeighborsTable].
  rewrite lookup_delete_ne by done. rewrite Hc. cbn zeta.
  set (w' := World _ _ _).
  destruct (fetchNeighborsByCountryId_spec c w') as (ns & Hq & _ & Hmem).
  injection Hq as Hq. subst w'. cbn [CountryNeighborsTable] in Hq.
  rewrite Hq.
  assert (Hx : x ∈ ns) by (by apply Hmem).
  rewrite (mapM_fetch_missing ns x _ Hx) by apply lookup_delete_eq.
  destruct ns; [by apply elem_of_nil in Hx | done].
Qed.

Lemma deleteCountry_leaves_relations_witness :
  let w' := (deleteCountry "NP" related).2 in
  CountryNeighborsTable w' = CountryNeighborsTable related
  ∧ CountriesTable w' !! "NP" = None
  ∧ getCountryNeighbors "IN" w' = (Return (typeError500 undefinedNeighbor), w').
Proof.
  apply (deleteCountry_leaves_relations "IN" "NP" india related).
  - reflexivity.
  - reflexivity.
  - discriminate.
Defined.




(** ** The public projection *)

Lemma publicFields_NoDup : NoDup publicFields.*1.
Proof. apply (bool_decide_unpack _). by vm_compute. Qed.

Lemma lookup_projection (g : string -> option json)
    (l : list (string * string)) (k : string) :
  NoDup l.*1 ->
  (list_to_map (omap (fun f => (fun v => (f.1, v)) <$> g f.2) l)
     : gmap string json) !! k
  = (list_to_map l : gmap string string) !! k ≫= g.
Proof.
  induction l as [|[k0 a0] l IH]; intros Hnd; [done|].
  apply NoDup_cons in Hnd as [Hk0 Hnd]. cbn [omap list_omap fst snd].
  destruct (decide (k = k0)) as [->|Hne].
  - cbn [list_to_map foldr fst snd]. rewrite lookup_insert_eq. cbn.
    destruct (g a0) as [v|]; cbn.
    + cbn [list_to_map foldr fst snd]. by rewrite lookup_insert_eq.
    + rewrite IH by done.
      by rewrite (not_elem_of_list_to_map_1 _ _ Hk0).
  - cbn [list_to_map foldr fst snd]. rewrite lookup_insert_ne by done.
    destruct (g a0) as [v|]; cbn; [|by apply IH].
    cbn [list_to_map foldr fst snd]. rewrite lookup_insert_ne by done.
    by apply IH.
Qed.

(** X9: the entry of a neighbour in the listing holds the twelve public
    fields of the record and nothing else: [id] has the value of
    [countryID], each other key that of the attribute of its name, and a
    key is missing when the record lacks the attribute. *)
Theorem project_exposes_public_fields (n : item) :
  ∃ o,
    project n = JObj o
    ∧ o !! "id" = n !! "countryID"
    ∧ o !! "name" = n !! "name"
    ∧ o !! "cca3" = n !! "cca3"
    ∧ o !! "currency_code" = n !! "currency_code"
    ∧ o !! "currency" = n !! "currency"
    ∧ o !! "capital" = n !! "capital"
    ∧ o !! "region" = n !! "region"
    ∧ o !! "subregion" = n !! "subregion"
    ∧ o !! "area" = n !! "area"
    ∧ o !! "map_url" = n !! "map_url"
    ∧ o !! "population" = n !! "population"
    ∧ o !! "flag_url" = n !! "flag_url"
    ∧ ∀ k, is_Some (o !! k) ->
           k ∈ ["id"; "name"; "cca3"; "currency_code"; "currency"; "capital";
                "region"; "subregion"; "area"; "map_url"; "population";
                "flag_url"].
Proof.
  eexists. split; [reflexivity|].
  assert (Hlookup := fun k => lookup_projection (fun a => n !! a) publicFields k
                                publicFields_NoDup).
  repeat (split; [by rewrite Hlookup|]).
  intros k [v Hk]. rewrite Hlookup in Hk.
  destruct (list_to_map publicFields !! k) as [attr|] eqn:Hattr; [|done].
  apply elem_of_list_to_map_2 in Hattr.
  change (k ∈ publicFields.*1). apply list_elem_of_fmap. by exists (k, attr).
Qed.

(** ** Creation *)

Lemma created_cons (v4 : nat -> string) (n : nat) (c : json) (l : list json) :
  created v4 n (c :: l)
  = <["countryID" := JStr (v4 n)]> (JS.spread c) :: created v4 (S n) l.
Proof.
  unfold created. cbn [imap]. rewrite Nat.add_0_r. f_equal.
  apply imap_ext. intros i x _. cbn. by rewrite Nat.add_succ_r.
Qed.

Lemma mapM_created (v4 : nat -> string) (l : list json) :
  ∀ (tbl : gmap string item) (rel : gset (string * string)) (n : nat),
  mapM (fun country =>
          let* id := v4_next v4 in
          ret (<["countryID" := JStr id]> (JS.spread country))) l
    (World tbl rel n)
  = (Return (created v4 n l), World tbl rel (n + length l)).
Proof.
  induction l as [|c l IH]; intros tbl rel n.
  - cbn. by rewrite Nat.add_0_r.
  - cbn [mapM]. unfold bind at 1. unfold bind at 1, v4_next at 1, ret at 1.
    cbn [CountriesTable CountryNeighborsTable v4_calls].
    unfold bind at 1. rewrite IH. unfold ret.
    rewrite created_cons. cbn [length]. by rewrite Nat.add_succ_r.
Qed.

(** The table after the batch write of the created records: a record is
    stored under its identifier unless a later record of the batch got the
    same one; the other keys are as before. *)
Lemma batchWrite_created (v4 : nat -> string) (l : list json) :
  ∀ (n : nat) (tbl : gmap string item) (rel : gset (string * string)) (m : nat),
  ∃ tbl',
    batchWrite (created v4 n l) (World tbl rel m) = (Return (), World tbl' rel m)
    ∧ (∀ k, (∀ i, (i < length l)%nat -> v4 (n + i)%nat ≠ k) ->
            tbl' !! k = tbl !! k)
    ∧ (∀ i c, l !! i = Some c ->
              (∀ j, (i < j < length l)%nat -> v4 (n + j)%nat ≠ v4 (n + i)%nat) ->
              tbl' !! v4 (n + i)%nat
              = Some (<["countryID" := JStr (v4 (n + i)%nat)]> (JS.spread c)))
    ∧ (∀ k, is_Some (tbl !! k) -> is_Some (tbl' !! k))
    ∧ (∀ k it, tbl' !! k = Some it ->
               tbl !! k = Some it ∨ it !! "countryID" = Some (JStr k)).
Proof.
  induction l as [|c l IH]; intros n tbl rel m.
  - exists tbl. split; [done|]. split; [done|]. split; [done|].
    split; [done|]. by left.
  - rewrite created_cons. cbn [batchWrite]. unfold bind at 1, put_country at 1.
    rewrite lookup_insert_eq. cbn [CountriesTable CountryNeighborsTable v4_calls].
    set (it0 := <["countryID" := JStr (v4 n)]> (JS.spread c)).
    destruct (IH (S n) (<[v4 n := it0]> tbl) rel m)
      as (tbl' & Hrun & Hother & Hstored & Hkeep & Hcoh).
    exists tbl'. split; [done|]. split; [|split; [|split]].
    + intros k Hk. rewrite Hother.
      * apply lookup_insert_ne. specialize (Hk 0%nat). rewrite Nat.add_0_r in Hk.
        apply Hk. cbn. lia.
      * intros i Hi. rewrite Nat.add_succ_comm. apply Hk. cbn. lia.
    + intros [|i] c' Hc Hlater.
      * injection Hc as <-. rewrite Nat.add_0_r. rewrite Hother.
        -- apply lookup_insert_eq.
        -- intros i Hi. rewrite Nat.add_succ_comm.
           specialize (Hlater (S i)). rewrite Nat.add_0_r in Hlater.
           apply Hlater. cbn. lia.
      * rewrite <- Nat.add_succ_comm. apply Hstored; [done|].
        intros j Hj. rewrite !Nat.add_succ_comm.
        apply (Hlater (S j)). cbn. lia.
    + intros k Hk. apply Hkeep.
      destruct (decide (v4 n = k)) as [<-|Hne].
      * rewrite lookup_insert_eq. by eexists.
      * by rewrite lookup_insert_ne.
    + intros k it Hit. destruct (Hcoh k it Hit) as [Hin|Hid]; [|by right].
      destruct (decide (v4 n = k)) as [<-|Hne].
      * rewrite lookup_insert_eq in Hin. injection Hin as <-. right.
        apply lookup_insert_eq.
      * rewrite lookup_insert_ne in Hin by done. by left.
Qed.

(** The run of [createCountry] on an array. *)
Lemma createCountry_array (v4 : nat -> string) (l : list json) (w : world) :
  ∃ tbl',
    createCountry v4 (Parsed (JArr l)) w
    = (Return (Response 201 (Some headers)
                 (JSON_stringify
                    (Some (JArr (JObj <$> created v4 (v4_calls w) l))))),
       World tbl' (CountryNeighborsTable w) (v4_calls w + length l))
    ∧ (∀ k, (∀ i, (i < length l)%nat -> v4 (v4_calls w + i)%nat ≠ k) ->
            tbl' !! k = CountriesTable w !! k)
    ∧ (∀ i c, l !! i = Some c ->
              (∀ j, (i < j < length l)%nat ->
                    v4 (v4_calls w + j)%nat ≠ v4 (v4_calls w + i)%nat) ->
              tbl' !! v4 (v4_calls w + i)%nat
              = Some (<["countryID" := JStr (v4 (v4_calls w + i)%nat)]>
                        (JS.spread c)))
    ∧ (∀ k, is_Some (CountriesTable w !! k) -> is_Some (tbl' !! k))
    ∧ (∀ k it, tbl' !! k = Some it ->
               CountriesTable w !! k = Some it
               ∨ it !! "countryID" = Some (JStr k)).
Proof.
  destruct w as [tbl rel n]. cbn [CountriesTable CountryNeighborsTable v4_calls].
  destruct (batchWrite_created v4 l n tbl rel (n + length l))
    as (tbl' & Hrun & Hrest).
  exists tbl'. split; [|exact Hrest].
  unfold createCountry, try_catch. unfold bind at 1, JSON_parse, ret at 1.
  unfold bind at 1. rewrite mapM_created. unfold bind at 1. by rewrite Hrun.
Qed.

(** X10: create, then get.  For a batch within the limits of
    [BatchWriteItem] (1 to 25 records, pairwise distinct identifiers),
    [createCountry] answers 201 and lists the created records; the record
    made of the [i]-th element is then returned by [getCountry] under the
    identifier that [v4] gave it.  That identifier is its [countryID], also
    when the element had a [countryID] of its own; its other attributes
    are those of the element. *)
Theorem createCountry_then_getCountry (v4 : nat -> string) (l : list json)
    (w : world) (i : nat) (c : json) :
  (0 < length l <= 25)%nat ->
  (∀ j k, (j < length l)%nat -> (k < length l)%nat ->
          v4 (v4_calls w + j)%nat = v4 (v4_calls w + k)%nat -> j = k) ->
  l !! i = Some c ->
  let id := v4 (v4_calls w + i)%nat in
  let record := <["countryID" := JStr id]> (JS.spread c) in
  let run := createCountry v4 (Parsed (JArr l)) w in
  (∃ r countries,
     run.1 = Return r ∧ statusCode r = 201
     ∧ body r = JSON_stringify (Some (JArr (JObj <$> countries)))
     ∧ length countries = length l
     ∧ countries !! i = Some record)
  ∧ getCountry id run.2
    = (Return (Response 200 (Some headers)
                 (JSON_stringify (Some (JObj record)))), run.2)
  ∧ record !! "countryID" = Some (JStr id)
  ∧ (∀ key, key ≠ "countryID" -> record !! key = JS.spread c !! key).
Proof.
  intros _ Hdistinct Hi id record run.
  destruct (createCountry_array v4 l w) as (tbl' & Hrun & _ & Hstored & _).
  subst run id record. rewrite Hrun. cbn [fst snd].
  split; [|split; [|split]].
  - eexists _, _. split; [reflexivity|]. split; [done|]. split; [done|].
    split; [apply length_imap|].
    unfold created. rewrite list_lookup_imap, Hi. done.
  - rewrite getCountry_always_200. cbn [CountriesTable].
    rewrite (Hstored i c Hi); [done|].
    intros j Hj Heq. apply Hdistinct in Heq; [lia|lia|].
    apply lookup_lt_Some in Hi. lia.
  - apply lookup_insert_eq.
  - intros key Hkey. by apply lookup_insert_ne.
Qed.

Lemma createCountry_then_getCountry_witness :
  let l := [obj [("name", JStr "Bhutan")];
            obj [("countryID", JStr "mine"); ("name", JStr "Sri Lanka")]] in
  let record :=
    <["countryID" := JStr "id1"]>
      (JS.spread (obj [("countryID", JStr "mine");
                       ("name", JStr "Sri Lanka")])) in
  let run := createCountry numberedId (Parsed (JArr l)) twoCountries in
  (∃ r countries,
     run.1 = Return r ∧ statusCode r = 201
     ∧ body r = JSON_stringify (Some (JArr (JObj <$> countries)))
     ∧ length countries = length l
     ∧ countries !! 1%nat = Some record)
  ∧ getCountry "id1" run.2
    = (Return (Response 200 (Some headers)
                 (JSON_stringify (Some (JObj record)))), run.2)
  ∧ record !! "countryID" = Some (JStr "id1")
  ∧ (∀ key, key ≠ "countryID" ->
            record !! key
            = JS.spread (obj [("countryID", JStr "mine");
                              ("name", JStr "Sri Lanka")]) !! key).
Proof.
  intros l record run.
  apply (createCountry_then_getCountry numberedId l twoCountries 1).
  - cbn. lia.
  - intros [|[|j]] [|[|k]] Hj Hk; cbn in Hj, Hk; try lia; try done.
  - reflexivity.
Defined.

(** X11: what [createCountry] leaves alone.  For a batch within the limits
    of [BatchWriteItem], the relation store is unchanged, as many
    identifiers are drawn as the body has elements, no stored identifier
    disappears, and the record under any identifier that was not drawn is
    the one stored before. *)
Theorem createCountry_frame (v4 : nat -> string) (l : list json) (w : world) :
  (0 < length l <= 25)%nat ->
  (∀ j k, (j < length l)%nat -> (k < length l)%nat ->
          v4 (v4_calls w + j)%nat = v4 (v4_calls w + k)%nat -> j = k) ->
  let w' := (createCountry v4 (Parsed (JArr l)) w).2 in
  CountryNeighborsTable w' = CountryNeighborsTable w
  ∧ v4_calls w' = (v4_calls w + length l)%nat
  ∧ (∀ k, is_Some (CountriesTable w !! k) -> is_Some (CountriesTable w' !! k))
  ∧ (∀ k, (∀ i, (i < length l)%nat -> v4 (v4_calls w + i)%nat ≠ k) ->
          CountriesTable w' !! k = CountriesTable w !! k).
Proof.
  intros _ _ w'.
  destruct (createCountry_array v4 l w) as (tbl' & Hrun & Hother & _ & Hkeep & _).
  subst w'. rewrite Hrun. cbn [snd CountriesTable CountryNeighborsTable v4_calls].
  done.
Qed.

Lemma createCountry_frame_witness :
  let l := [obj [("name", JStr "Bhutan")]] in
  let w' := (createCountry numberedId (Parsed (JArr l)) related).2 in
  CountryNeighborsTable w' = CountryNeighborsTable related
  ∧ v4_calls w' = (v4_calls related + length l)%nat
  ∧ (∀ k, is_Some (CountriesTable related !! k) ->
          is_Some (CountriesTable w' !! k))
  ∧ (∀ k, (∀ i, (i < length l)%nat ->
                numberedId (v4_calls related + i)%nat ≠ k) ->
          CountriesTable w' !! k = CountriesTable related !! k).
Proof.
  intros l w'. apply (createCountry_frame numberedId l related).
  - cbn. lia.
  - intros j k Hj Hk _. cbn in Hj, Hk. lia.
Defined.

(** ** Update *)

(** The runs of [updateCountry]. *)
Lemma updateCountry_cases (schema_validate : json -> list string)
    (id : string) (b : parsed) (w : world) :
  updateCountry schema_validate id b w =
    match b with
    | Unparsable m =>
        (Return (Response 400 (Some headers)
           (JSON_stringify (Some (obj
              [("error",
                JStr ("invalid request body format : " +:+ dquote +:+ m
                      +:+ dquote))])))), w)
    | Parsed v =>
        match schema_validate v with
        | [] =>
            let country := <["countryID" := JStr id]> (JS.spread v) in
            (Return (Response 200 (Some headers)
                       (JSON_stringify (Some (JObj country)))),
             World (<[id := country]> (CountriesTable w))
                   (CountryNeighborsTable w) (v4_calls w))
        | errors =>
            (Return (Response 400 (Some headers)
               (JSON_stringify (Some (obj
                  [("errors", JArr (JStr <$> errors))])))), w)
        end
    end.
Proof.
  destruct b as [v|m]; [|done].
  destruct (schema_validate v) as [|e errors] eqn:Hv.
  - by apply updateCountry_upserts.
  - unfold updateCountry, try_catch, bind, validate; simpl. by rewrite Hv.
Qed.

(** X12: update, then get.  After [updateCountry] of a patch that passes
    the schema, [getCountry] returns the record that the update answered
    with: the patch under the identifier of the path.  The update replaces
    the whole record (an attribute that the patch lacks is gone, whatever
    was stored) and touches no other record and no relation. *)
Theorem updateCountry_then_getCountry (schema_validate : json -> list string)
    (id : string) (v : json) (w : world) :
  schema_validate v = [] ->
  let record := <["countryID" := JStr id]> (JS.spread v) in
  let run := updateCountry schema_validate id (Parsed v) w in
  run.1 = Return (Response 200 (Some headers)
                    (JSON_stringify (Some (JObj record))))
  ∧ getCountry id run.2
    = (Return (Response 200 (Some headers)
                 (JSON_stringify (Some (JObj record)))), run.2)
  ∧ (∀ key, key ≠ "countryID" -> record !! key = JS.spread v !! key)
  ∧ (∀ k, k ≠ id -> CountriesTable run.2 !! k = CountriesTable w !! k)
  ∧ CountryNeighborsTable run.2 = CountryNeighborsTable w.
Proof.
  intros Hv record run. subst run record.
  rewrite (updateCountry_upserts _ _ _ _ Hv). cbn [fst snd].
  split; [done|]. split; [|split; [|split]].
  - rewrite getCountry_always_200. cbn [CountriesTable].
    by rewrite lookup_insert_eq.
  - intros key Hkey. by apply lookup_insert_ne.
  - intros k Hk. cbn [CountriesTable]. by apply lookup_insert_ne.
  - done.
Qed.

Lemma updateCountry_then_getCountry_witness :
  let v := obj [("name", JStr "Bharat")] in
  let record := <["countryID" := JStr "IN"]> (JS.spread v) in
  let run := updateCountry (fun _ => []) "IN" (Parsed v) twoCountries in
  run.1 = Return (Response 200 (Some headers)
                    (JSON_stringify (Some (JObj record))))
  ∧ getCountry "IN" run.2
    = (Return (Response 200 (Some headers)
                 (JSON_stringify (Some (JObj record)))), run.2)
  ∧ (∀ key, key ≠ "countryID" -> record !! key = JS.spread v !! key)
  ∧ (∀ k, k ≠ "IN" ->
          CountriesTable run.2 !! k = CountriesTable twoCountries !! k)
  ∧ CountryNeighborsTable run.2 = CountryNeighborsTable twoCountries.
Proof.
  intros v record run.
  apply (updateCountry_then_getCountry (fun _ => []) "IN" v twoCountries).
  reflexivity.
Defined.

(** X13: [updateCountry] answers every request with 200 or 400 (it has no
    404 and never rejects).  A body that does not parse and a patch that
    fails the schema are answered 400, the latter with all the failures,
    and write nothing. *)
Theorem updateCountry_rejections_write_nothing
    (schema_validate : json -> list string) (id : string) (b : parsed)
    (w : world) :
  ∃ r w',
    updateCountry schema_validate id b w = (Return r, w')
    ∧ (statusCode r = 200 ∨ statusCode r = 400 ∧ w' = w)
    ∧ (statusCode r = 200 ↔ ∃ v, b = Parsed v ∧ schema_validate v = [])
    ∧ (∀ v, b = Parsed v -> schema_validate v ≠ [] ->
            r = Response 400 (Some headers)
                  (JSON_stringify (Some (obj
                     [("errors", JArr (JStr <$> schema_validate v))])))).
Proof.
  rewrite updateCountry_cases. destruct b as [v|m].
  - destruct (schema_validate v) as [|e errors] eqn:Hv.
    + eexists _, _. split; [reflexivity|]. split; [by left|]. split.
      * split; [|done]. intros _. by exists v.
      * intros v' [= <-] Hne. by rewrite Hv in Hne.
    + eexists _, _. split; [reflexivity|]. split; [by right|]. split.
      * split; [done|]. intros (v' & [= <-] & Hv'). by rewrite Hv in Hv'.
      * intros v' [= <-] _. by rewrite Hv.
  - eexists _, _. split; [reflexivity|]. split; [by right|]. split.
    + split; [done|]. by intros (v & [=] & _).
    + by intros v [=].
Qed.

(** ** Invariants of the store *)

Lemma createCountry_not_array (v4 : nat -> string) (b : parsed) (w : world) :
  (∀ l, b ≠ Parsed (JArr l)) ->
  ∃ r, createCountry v4 b w = (Return r, w).
Proof.
  intros Hb. destruct b as [v|m]; [|by eexists].
  destruct v; try by eexists. by destruct (Hb l).
Qed.

Lemma createCountry_table (v4 : nat -> string) (b : parsed) (w : world) :
  CountryNeighborsTable (createCountry v4 b w).2 = CountryNeighborsTable w
  ∧ (∀ k, is_Some (CountriesTable w !! k) ->
          is_Some (CountriesTable (createCountry v4 b w).2 !! k))
  ∧ (∀ k it, CountriesTable (createCountry v4 b w).2 !! k = Some it ->
             CountriesTable w !! k = Some it
             ∨ it !! "countryID" = Some (JStr k)).
Proof.
  assert (b = Parsed (match b with Parsed (JArr l) => JArr l | _ => JArr [] end)
          ∧ (∃ l, b = Parsed (JArr l))
          ∨ ∀ l, b ≠ Parsed (JArr l)) as [[_ [l ->]]|Hb].
  { destruct b as [[| | | |l|]|]; try (by right). left. eauto. }
  - destruct (createCountry_array v4 l w) as (tbl' & Hrun & _ & _ & Hkeep & Hcoh).
    rewrite Hrun. cbn [snd CountriesTable CountryNeighborsTable]. done.
  - destruct (createCountry_not_array v4 b w Hb) as [r ->]. cbn [snd].
    split; [done|]. split; [done|]. intros k it Hit. by left.
Qed.

Lemma updateCountry_table (schema_validate : json -> list string)
    (id : string) (b : parsed) (w : world) :
  let w' := (updateCountry schema_validate id b w).2 in
  CountryNeighborsTable w' = CountryNeighborsTable w
  ∧ (∀ k, is_Some (CountriesTable w !! k) -> is_Some (CountriesTable w' !! k))
  ∧ (∀ k it, CountriesTable w' !! k = Some it ->
             CountriesTable w !! k = Some it
             ∨ it !! "countryID" = Some (JStr k)).
Proof.
  intros w'. subst w'. rewrite updateCountry_cases.
  destruct b as [v|m]; [destruct (schema_validate v)|];
    cbn [snd CountriesTable CountryNeighborsTable];
    (split; [done|]); try (split; [done|]; intros k it Hit; by left).
  split.
  - intros k Hk. destruct (decide (id = k)) as [<-|Hne].
    + rewrite lookup_insert_eq. by eexists.
    + by rewrite lookup_insert_ne.
  - intros k it Hit. destruct (decide (id = k)) as [<-|Hne].
    + rewrite lookup_insert_eq in Hit. injection Hit as <-. right.
      apply lookup_insert_eq.
    + rewrite lookup_insert_ne in Hit by done. by left.
Qed.

(** X14: every stored record carries the key it is stored under as its
    [countryID].  The four handlers that write keep this, on every
    request. *)
Theorem handlers_keep_coherent (w : world) :
  coherent w ->
  (∀ v4 b, coherent (createCountry v4 b w).2)
  ∧ (∀ schema_validate id b, coherent (updateCountry schema_validate id b w).2)
  ∧ (∀ id, coherent (deleteCountry id w).2)
  ∧ (∀ c b, coherent (addNeighbors c b w).2).
Proof.
  intros Hw. split; [|split; [|split]].
  - intros v4 b k it Hit.
    destruct (createCountry_table v4 b w) as (_ & _ & Hcoh).
    destruct (Hcoh k it Hit) as [Hold|Hnew]; [by eapply Hw | done].
  - intros sv id b k it Hit.
    destruct (updateCountry_table sv id b w) as (_ & _ & Hcoh).
    destruct (Hcoh k it Hit) as [Hold|Hnew]; [by eapply Hw | done].
  - intros id k it Hit. rewrite deleteCountry_always_204 in Hit.
    cbn [snd CountriesTable] in Hit.
    apply lookup_delete_Some in Hit as [_ Hit]. by eapply Hw.
  - intros c b k it Hit.
    destruct (addNeighbors_any c b w) as (r & added & Hrun & _).
    rewrite Hrun in Hit. by eapply Hw.
Qed.

(** X15: both ends of every stored relation are stored countries.
    [createCountry], [updateCountry] and [addNeighbors] keep this, on every
    request. *)
Theorem handlers_keep_referential (w : world) :
  referential w ->
  (∀ v4 b, referential (createCountry v4 b w).2)
  ∧ (∀ schema_validate id b,
       referential (updateCountry schema_validate id b w).2)
  ∧ (∀ c b, referential (addNeighbors c b w).2).
Proof.
  intros Hw. split; [|split].
  - intros v4 b a x Hin.
    destruct (createCountry_table v4 b w) as (Hrel & Hkeep & _).
    rewrite Hrel in Hin. destruct (Hw a x Hin). split; by apply Hkeep.
  - intros sv id b a x Hin.
    destruct (updateCountry_table sv id b w) as (Hrel & Hkeep & _).
    rewrite Hrel in Hin. destruct (Hw a x Hin). split; by apply Hkeep.
  - intros c b a x Hin.
    destruct (addNeighbors_any c b w) as (r & added & Hrun & _ & Hnew & Hc & _).
    rewrite Hrun in Hin |- *. cbn [snd CountriesTable CountryNeighborsTable] in *.
    apply elem_of_union in Hin as [Hin|Hin]; [|by apply Hw].
    apply elem_of_list_to_set, list_elem_of_fmap in Hin as (y & [= -> ->] & Hy).
    split.
    + apply Hc. intros ->. by apply elem_of_nil in Hy.
    + eapply Forall_forall in Hnew as [_ Hx]; [exact Hx | exact Hy].
Qed.

Lemma twoCountries_lookup (id : string) (i : item) :
  CountriesTable twoCountries !! id = Some i ->
  id = "IN" ∧ i = india ∨ id = "NP" ∧ i = nepal.
Proof.
  change (CountriesTable twoCountries)
    with (<["IN" := india]> (<["NP" := nepal]> (∅ : gmap string item))).
  intros [[<- <-]|[_ [[<- <-]|[_ H]]%lookup_insert_Some]]%lookup_insert_Some;
    [by left | by right | done].
Qed.

Lemma coherent_twoCountries : coherent twoCountries.
Proof.
  intros id i [[-> ->]|[-> ->]]%twoCountries_lookup; reflexivity.
Qed.

Lemma referential_related : referential related.
Proof.
  intros a b Hin. cbn [related CountryNeighborsTable] in Hin.
  apply elem_of_singleton in Hin. injection Hin as -> ->.
  split; eexists; reflexivity.
Qed.

Lemma handlers_keep_coherent_witness :
  (∀ v4 b, coherent (createCountry v4 b twoCountries).2)
  ∧ (∀ schema_validate id b,
       coherent (updateCountry schema_validate id b twoCountries).2)
  ∧ (∀ id, coherent (deleteCountry id twoCountries).2)
  ∧ (∀ c b, coherent (addNeighbors c b twoCountries).2).
Proof. apply (handlers_keep_coherent twoCountries), coherent_twoCountries. Defined.

Lemma handlers_keep_referential_witness :
  (∀ v4 b, referential (createCountry v4 b related).2)
  ∧ (∀ schema_validate id b,
       referential (updateCountry schema_validate id b related).2)
  ∧ (∀ c b, referential (addNeighbors c b related).2).
Proof. apply (handlers_keep_referential related), referential_related. Defined.

(** ** Listing, page by page *)

Lemma scanCountries_world (RegExp_source : string -> option string)
    (search : option string) (w : world) :
  (scanCountries RegExp_source search w).2 = w.
Proof.
  unfold scanCountries. destruct search as [[|a s]|]; try done.
  by destruct (RegExp_source _).
Qed.

Lemma concat_windows {A} (items : list A) (l : nat) (n : nat) :
  concat ((fun k => take l (drop (k * l) items)) <$> seq 0 n)
  = take (n * l) items.
Proof.
  induction n as [|n IH]; [done|].
  rewrite seq_S, fmap_app, concat_app, IH. cbn [fmap list_fmap concat].
  rewrite app_nil_r, take_take_drop. f_equal. lia.
Qed.

Lemma pages_cover (t l : Z) :
  0 <= t -> 0 < l -> t <= (t + l - 1) / l * l.
Proof. intros Ht Hl. pose proof (ceil_div_bounds t l Hl). lia. Qed.

Lemma with_page (RegExp_source : string -> option string)
    (lessThan : option json -> option json -> bool)
    (q : gmap string string) (s : string) (w : world)
    (filtered : list item) (p l : Z) :
  let criteria := sortCriteria (default "a_to_z" (q !! "sort_by")) in
  let sorted :=
    Array_sort (compareFn lessThan criteria.1 criteria.2) filtered in
  let total := length filtered in
  let pages := (Z.of_nat total + l - 1) / l in
  JS.parseInt s = JS.Num p -> 0 < p ->
  JS.parseInt (default "10" (q !! "limit")) = JS.Num l -> 0 < l ->
  scanCountries RegExp_source (q !! "search") w = (Return filtered, w) ->
  Z.of_nat total < 2 ^ 32 ->
  getAllCountriesPaginated RegExp_source lessThan
    (Some (<["page" := s]> q)) w =
    (Return (envelope (pageWindow sorted p l) (bool_decide (p < pages))
               (bool_decide (1 < p)) p pages l total), w).
Proof.
  intros criteria sorted total pages Hpage Hp Hlimit Hl Hscan Htotal.
  assert (Hlim : (<["page" := s]> q) !! "limit" = q !! "limit")
    by (apply lookup_insert_ne; discriminate).
  assert (Hsort : (<["page" := s]> q) !! "sort_by" = q !! "sort_by")
    by (apply lookup_insert_ne; discriminate).
  assert (Hsearch : (<["page" := s]> q) !! "search" = q !! "search")
    by (apply lookup_insert_ne; discriminate).
  assert (Hp' : (<["page" := s]> q) !! "page" = Some s)
    by apply lookup_insert_eq.
  pose proof (getAllCountriesPaginated_page RegExp_source lessThan
                (Some (<["page" := s]> q)) w w filtered p l) as Hrun.
  cbv zeta in Hrun. cbn [default] in Hrun. unfold id in Hrun.
  rewrite Hlim, Hsort, Hsearch, Hp' in Hrun.
  cbn [default] in Hrun. by apply Hrun.
Qed.

(** X16: the pages partition the listing.  For a fixed limit, sort order
    and search, the lists of the pages 1 to [pages], taken together, hold
    the records of the filtered set, each as often as the set does: every
    record is on exactly one page. *)
Theorem pages_partition_the_listing
    (RegExp_source : string -> option string)
    (lessThan : option json -> option json -> bool)
    (q : gmap string string) (w : world) (filtered : list item) (l : Z)
    (texts : list string) :
  let total := length filtered in
  let pages := (Z.of_nat total + l - 1) / l in
  JS.parseInt (default "10" (q !! "limit")) = JS.Num l -> 0 < l ->
  scanCountries RegExp_source (q !! "search") w = (Return filtered, w) ->
  Z.of_nat total < 2 ^ 32 ->
  Forall2 (fun s k => JS.parseInt s = JS.Num (Z.of_nat (S k)))
    texts (seq 0 (Z.to_nat pages)) ->
  ∃ windows,
    Forall2 (fun s window =>
               ∃ hasNext hasPrev page,
                 getAllCountriesPaginated RegExp_source lessThan
                   (Some (<["page" := s]> q)) w
                 = (Return (envelope window hasNext hasPrev page pages l
                              total), w))
      texts windows
    ∧ concat windows ≡ₚ filtered.
Proof.
  intros total pages Hlimit Hl Hscan Htotal Htexts.
  set (criteria := sortCriteria (default "a_to_z" (q !! "sort_by"))).
  set (sorted :=
    Array_sort (compareFn lessThan criteria.1 criteria.2) filtered).
  assert (Hperm : sorted ≡ₚ filtered) by apply Array_sort_perm.
  exists ((fun k => pageWindow sorted (Z.of_nat (S k)) l)
            <$> seq 0 (Z.to_nat pages)).
  split.
  - apply Forall2_fmap_r. eapply Forall2_impl; [exact Htexts|].
    intros s k Hs. cbn beta. eexists _, _, _.
    apply (with_page RegExp_source lessThan q s w filtered (Z.of_nat (S k)) l);
      [exact Hs | lia | exact Hlimit | exact Hl | exact Hscan | exact Htotal].
  - assert (Heq :
      (fun k => pageWindow sorted (Z.of_nat (S k)) l) <$> seq 0 (Z.to_nat pages)
      = (fun k => take (Z.to_nat l) (drop (k * Z.to_nat l) sorted))
          <$> seq 0 (Z.to_nat pages)).
    { apply list_fmap_ext. intros i k _. unfold pageWindow.
      f_equal. f_equal. nia. }
    rewrite Heq, concat_windows, take_ge; [done|].
    pose proof (pages_cover (Z.of_nat total) l ltac:(lia) Hl) as Hcover.
    fold pages in Hcover. rewrite (Permutation_length Hperm). fold total.
    assert (0 <= pages) by (apply Z.div_pos; lia). nia.
Qed.

Lemma pages_partition_the_listing_witness :
  let q : gmap string string := {["limit" := "10"]} in
  let filtered := (map_to_list (CountriesTable twentyFive)).*2 in
  let total := length filtered in
  let pages := (Z.of_nat total + 10 - 1) / 10 in
  ∃ windows,
    Forall2 (fun s window =>
               ∃ hasNext hasPrev page,
                 getAllCountriesPaginated Some lessThan_typed
                   (Some (<["page" := s]> q)) twentyFive
                 = (Return (envelope window hasNext hasPrev page pages 10
                              total), twentyFive))
      ["1"; "2"; "3"] windows
    ∧ concat windows ≡ₚ filtered.
Proof.
  intros q filtered total pages.
  apply (pages_partition_the_listing Some lessThan_typed q twentyFive
           filtered 10 ["1"; "2"; "3"]).
  - reflexivity.
  - lia.
  - reflexivity.
  - reflexivity.
  - match goal with
    | |- Forall2 _ _ (seq 0 ?n) =>
        replace n with 3%nat by (vm_compute; reflexivity)
    end.
    repeat constructor.
Defined.

(** X17: a page past the last one.  When [page] parses to a positive
    integer beyond [pages] (in particular any page when the search matches
    nothing), the response is still 200, with an empty list and [has_next]
    false. *)
Theorem page_past_the_end_is_empty
    (RegExp_source : string -> option string)
    (lessThan : option json -> option json -> bool)
    (qs : option (gmap string string)) (w w' : world)
    (filtered : list item) (p l : Z) :
  let q := default ∅ qs in
  let total := length filtered in
  let pages := (Z.of_nat total + l - 1) / l in
  JS.parseInt (default "1" (q !! "page")) = JS.Num p -> 0 < p ->
  JS.parseInt (default "10" (q !! "limit")) = JS.Num l -> 0 < l ->
  scanCountries RegExp_source (q !! "search") w = (Return filtered, w') ->
  Z.of_nat total < 2 ^ 32 ->
  pages < p ->
  getAllCountriesPaginated RegExp_source lessThan qs w =
    (Return (envelope [] false (bool_decide (1 < p)) p pages l total), w')
  ∧ (total = 0%nat -> pages = 0).
Proof.
  intros q total pages Hpage Hp Hlimit Hl Hscan Htotal Hpast.
  pose proof (getAllCountriesPaginated_page RegExp_source lessThan qs w w'
                filtered p l Hpage Hp Hlimit Hl Hscan Htotal) as Hrun.
  cbv zeta in Hrun. fold q total pages in Hrun.
  set (sorted := Array_sort _ filtered) in Hrun.
  assert (Hlen : length sorted = total)
    by (unfold sorted, total; by rewrite Array_sort_perm).
  split.
  - assert (Hwin : pageWindow sorted p l = []).
    { unfold pageWindow. rewrite drop_ge; [by rewrite take_nil|].
      pose proof (pages_cover (Z.of_nat total) l ltac:(lia) Hl) as Hcover.
      fold pages in Hcover. rewrite Hlen. nia. }
    rewrite Hrun, Hwin. by rewrite (bool_decide_eq_false_2 (p < pages)) by lia.
  - intros Hzero. unfold pages. rewrite Hzero.
    apply Z.div_small. lia.
Qed.

(** Page 7 of a search that matches none of the two records. *)
Lemma page_past_the_end_is_empty_witness :
  let qs : option (gmap string string) :=
    Some (<["search" := "zzz"]> {["page" := "7"]}) in
  let filtered : list item := [] in
  let total := length filtered in
  let pages := (Z.of_nat total + 10 - 1) / 10 in
  getAllCountriesPaginated Some lessThan_typed qs twoCountries =
    (Return (envelope [] false (bool_decide (1 < 7)) 7 pages 10 total),
     twoCountries)
  ∧ (total = 0%nat -> pages = 0).
Proof.
  intros qs filtered total pages.
  apply (page_past_the_end_is_empty Some lessThan_typed qs twoCountries
           twoCountries filtered 7 10).
  - reflexivity.
  - lia.
  - reflexivity.
  - lia.
  - reflexivity.
  - reflexivity.
  - reflexivity.
Defined.

(** X18: [has_next] tells whether the next page has records.  For pages
    [p] and [p + 1] under the same limit, sort order and search, the flag
    of page [p] is true exactly when the list of page [p + 1] is not
    empty, and page [p + 1] has [has_prev] true. *)
Theorem has_next_iff_next_page_has_records
    (RegExp_source : string -> option string)
    (lessThan : option json -> option json -> bool)
    (q : gmap string string) (s s' : string) (w : world)
    (filtered : list item) (p l : Z) :
  JS.parseInt s = JS.Num p -> 0 < p ->
  JS.parseInt s' = JS.Num (p + 1) ->
  JS.parseInt (default "10" (q !! "limit")) = JS.Num l -> 0 < l ->
  scanCountries RegExp_source (q !! "search") w = (Return filtered, w) ->
  Z.of_nat (length filtered) < 2 ^ 32 ->
  ∃ window window' hasNext hasNext' hasPrev pages,
    getAllCountriesPaginated RegExp_source lessThan
      (Some (<["page" := s]> q)) w
    = (Return (envelope window hasNext hasPrev p pages l (length filtered)),
       w)
    ∧ getAllCountriesPaginated RegExp_source lessThan
        (Some (<["page" := s']> q)) w
      = (Return (envelope window' hasNext' true (p + 1) pages l
                   (length filtered)), w)
    ∧ (hasNext = true ↔ window' ≠ []).
Proof.
  intros Hs Hp Hs' Hlimit Hl Hscan Htotal.
  pose proof (with_page RegExp_source lessThan q s w filtered p l
                Hs Hp Hlimit Hl Hscan Htotal) as Hrun.
  pose proof (with_page RegExp_source lessThan q s' w filtered (p + 1) l
                Hs' ltac:(lia) Hlimit Hl Hscan Htotal) as Hrun'.
  cbv zeta in Hrun, Hrun'.
  set (sorted := Array_sort _ filtered) in *.
  assert (Hlen : length sorted = length filtered)
    by (unfold sorted; by rewrite Array_sort_perm).
  set (pages := (Z.of_nat (length filtered) + l - 1) / l) in *.
  rewrite (bool_decide_eq_true_2 (1 < p + 1)) in Hrun' by lia.
  eexists _, _, _, _, _, _. split; [exact Hrun|]. split; [exact Hrun'|].
  rewrite bool_decide_eq_true.
  pose proof (ceil_div_bounds (Z.of_nat (length filtered)) l Hl) as Hb.
  fold pages in Hb. unfold pageWindow.
  replace (p + 1 - 1) with p by lia. split.
  - intros Hlt Hnil.
    assert (Hzero : length (take (Z.to_nat l)
                      (drop (Z.to_nat (p * l)) sorted)) = 0%nat)
      by (by rewrite Hnil).
    rewrite length_take, length_drop, Hlen in Hzero. nia.
  - intros Hne. destruct (decide (p < pages)) as [|Hge]; [done|].
    exfalso. apply Hne. rewrite drop_ge; [by rewrite take_nil|].
    rewrite Hlen. nia.
Qed.

Lemma has_next_iff_next_page_has_records_witness :
  let q : gmap string string := {["limit" := "10"]} in
  let filtered := (map_to_list (CountriesTable twentyFive)).*2 in
  ∃ window window' hasNext hasNext' hasPrev pages,
    getAllCountriesPaginated Some lessThan_typed
      (Some (<["page" := "2"]> q)) twentyFive
    = (Return (envelope window hasNext hasPrev 2 pages 10 (length filtered)),
       twentyFive)
    ∧ getAllCountriesPaginated Some lessThan_typed
        (Some (<["page" := "3"]> q)) twentyFive
      = (Return (envelope window' hasNext' true (2 + 1) pages 10
                   (length filtered)), twentyFive)
    ∧ (hasNext = true ↔ window' ≠ []).
Proof.
  intros q filtered.
  apply (has_next_iff_next_page_has_records Some lessThan_typed q "2" "3"
           twentyFive filtered 2 10).
  - reflexivity.
  - lia.
  - reflexivity.
  - reflexivity.
  - lia.
  - reflexivity.
  - reflexivity.
Defined.

(** ** Listing: order and search *)

Lemma insert_sorted_elem_of {A} (cmp : A -> A -> Z) (x y : A) (l : list A) :
  y ∈ insert_sorted cmp x l ↔ y = x ∨ y ∈ l.
Proof. by rewrite insert_sorted_perm, elem_of_cons. Qed.

(** The comparison sort orders its input by [R] when the comparison
    function and [R] agree on the elements: [x] is moved behind [y] only
    if [R y x], and stays in front of [y] only if [R x y]. *)
Lemma Array_sort_sorted {A} (cmp : A -> A -> Z) (R : A -> A -> Prop)
    (l : list A) :
  (∀ a b, a ∈ l -> b ∈ l -> 0 < cmp a b -> R b a) ->
  (∀ a b, a ∈ l -> b ∈ l -> ¬ 0 < cmp a b -> R a b) ->
  (∀ a b c, a ∈ l -> b ∈ l -> c ∈ l -> R a b -> R b c -> R a c) ->
  StronglySorted R (Array_sort cmp l).
Proof.
  intros Hafter Hbefore Htrans.
  assert (Hins : ∀ x s,
    x ∈ l -> (∀ y, y ∈ s -> y ∈ l) ->
    StronglySorted R s -> StronglySorted R (insert_sorted cmp x s)).
  { intros x s Hx. induction s as [|y s IH]; intros Hs Hsorted.
    - repeat constructor.
    - apply StronglySorted_cons in Hsorted as [Hy Hsorted].
      assert (Hyl : y ∈ l) by (apply Hs; by left).
      assert (Hsl : ∀ z, z ∈ s -> z ∈ l) by (intros z Hz; apply Hs; by right).
      cbn [insert_sorted]. destruct (0 <? cmp x y) eqn:Hcmp.
      + apply Z.ltb_lt in Hcmp. apply StronglySorted_cons. split; [|by apply IH].
        apply Forall_forall. intros z [->|Hz]%insert_sorted_elem_of.
        * by apply Hafter.
        * by eapply Forall_forall in Hy.
      + apply Z.ltb_ge in Hcmp. apply StronglySorted_cons. split.
        * assert (Hxy : R x y) by (apply Hbefore; [done..|lia]).
          constructor; [done|]. apply Forall_forall. intros z Hz.
          apply (Htrans x y z); [done|done|by apply Hsl|done|].
          by eapply Forall_forall in Hy.
        * by apply StronglySorted_cons. }
  assert (Hgen : ∀ s, (∀ y, y ∈ s -> y ∈ l) ->
    StronglySorted R (Array_sort cmp s)).
  { induction s as [|x s IH]; intros Hs; [constructor|].
    cbn [Array_sort foldr]. apply Hins.
    - apply Hs. by left.
    - intros y Hy. apply Hs. right.
      by rewrite <- (Array_sort_perm cmp s).
    - apply IH. intros y Hy. apply Hs. by right. }
  by apply Hgen.
Qed.

(** X19: the numeric sort orders.  For [population_high_to_low] and
    [area_high_to_low] the sorted set, and so the list of every page, is
    in non-increasing order of the number; for the two [low_to_high]
    orders it is non-decreasing.  This is for records whose sort key
    compares as the number it holds. *)
Theorem numeric_sort_orders
    (RegExp_source : string -> option string)
    (lessThan : option json -> option json -> bool)
    (qs : option (gmap string string)) (w w' : world)
    (filtered : list item) (p l : Z) (sort_by key : string) (direction : Z) :
  let q := default ∅ qs in
  (sort_by, (key, direction)) ∈ numericCriteria ->
  q !! "sort_by" = Some sort_by ->
  (∀ a b, a ∈ filtered -> b ∈ filtered ->
          lessThan (a !! key) (b !! key)
          = (numberAt key a <? numberAt key b)) ->
  JS.parseInt (default "1" (q !! "page")) = JS.Num p -> 0 < p ->
  JS.parseInt (default "10" (q !! "limit")) = JS.Num l -> 0 < l ->
  scanCountries RegExp_source (q !! "search") w = (Return filtered, w') ->
  Z.of_nat (length filtered) < 2 ^ 32 ->
  let ordered (a b : item) :=
    direction * numberAt key a <= direction * numberAt key b in
  ∃ sorted window hasNext hasPrev pages,
    sorted ≡ₚ filtered
    ∧ StronglySorted ordered sorted
    ∧ getAllCountriesPaginated RegExp_source lessThan qs w
      = (Return (envelope window hasNext hasPrev p pages l
                   (length filtered)), w')
    ∧ window = take (Z.to_nat l) (drop (Z.to_nat ((p - 1) * l)) sorted)
    ∧ StronglySorted ordered window.
Proof.
  intros q Hcrit Hsort Hlt Hpage Hp Hlimit Hl Hscan Htotal ordered.
  pose proof (getAllCountriesPaginated_page RegExp_source lessThan qs w w'
                filtered p l Hpage Hp Hlimit Hl Hscan Htotal) as Hrun.
  cbv zeta in Hrun. fold q in Hrun. rewrite Hsort in Hrun.
  cbn [default from_option] in Hrun. unfold id in Hrun.
  assert (Hsc : sortCriteria sort_by = (key, direction)
                ∧ (direction = 1 ∨ direction = -1)).
  { unfold numericCriteria in Hcrit.
    repeat (apply elem_of_cons in Hcrit as [[= -> -> ->]|Hcrit];
            [split; [reflexivity | auto]|]).
    by apply elem_of_nil in Hcrit. }
  destruct Hsc as [Hsc Hdir]. rewrite Hsc in Hrun. cbn [fst snd] in Hrun.
  set (sorted := Array_sort (compareFn lessThan key direction) filtered) in *.
  assert (Hperm : sorted ≡ₚ filtered) by apply Array_sort_perm.
  assert (Hsorted : StronglySorted ordered sorted).
  { apply Array_sort_sorted.
    - intros a b Ha Hb. unfold compareFn, ordered.
      rewrite (Hlt a b Ha Hb), (Hlt b a Hb Ha).
      destruct (Z.ltb_spec (numberAt key a) (numberAt key b));
        destruct (Z.ltb_spec (numberAt key b) (numberAt key a));
        destruct Hdir as [-> | ->]; lia.
    - intros a b Ha Hb. unfold compareFn, ordered.
      rewrite (Hlt a b Ha Hb), (Hlt b a Hb Ha).
      destruct (Z.ltb_spec (numberAt key a) (numberAt key b));
        destruct (Z.ltb_spec (numberAt key b) (numberAt key a));
        destruct Hdir as [-> | ->]; lia.
    - intros a b c _ _ _. unfold ordered. lia. }
  exists sorted, (pageWindow sorted p l). eexists _, _, _.
  split; [done|]. split; [done|]. split; [exact Hrun|].
  split; [done|]. unfold pageWindow.
  rewrite <- (take_drop (Z.to_nat ((p - 1) * l)) sorted) in Hsorted.
  apply StronglySorted_app_1_r in Hsorted.
  rewrite <- (take_drop (Z.to_nat l) (drop _ sorted)) in Hsorted.
  by apply StronglySorted_app_1_l in Hsorted.
Qed.

Lemma twoCountries_values (a : item) :
  a ∈ (map_to_list (CountriesTable twoCountries)).*2 -> a = india ∨ a = nepal.
Proof.
  intros [[k i] [-> Hin]]%list_elem_of_fmap.
  apply elem_of_map_to_list in Hin.
  change (CountriesTable twoCountries)
    with (<["IN" := india]> (<["NP" := nepal]> (∅ : gmap string item))) in Hin.
  apply lookup_insert_Some in Hin as [[_ <-]|[_ Hin]]; [by left|].
  apply lookup_insert_Some in Hin as [[_ <-]|[_ Hin]]; [by right|done].
Qed.

Lemma numeric_sort_orders_witness :
  let qs : option (gmap string string) :=
    Some {["sort_by" := "population_high_to_low"]} in
  let filtered := (map_to_list (CountriesTable twoCountries)).*2 in
  let ordered (a b : item) :=
    -1 * numberAt "population" a <= -1 * numberAt "population" b in
  ∃ sorted window hasNext hasPrev pages,
    sorted ≡ₚ filtered
    ∧ StronglySorted ordered sorted
    ∧ getAllCountriesPaginated Some lessThan_typed qs twoCountries
      = (Return (envelope window hasNext hasPrev 1 pages 10
                   (length filtered)), twoCountries)
    ∧ window = take (Z.to_nat 10) (drop (Z.to_nat ((1 - 1) * 10)) sorted)
    ∧ StronglySorted ordered window.
Proof.
  intros qs filtered ordered.
  apply (numeric_sort_orders Some lessThan_typed qs twoCountries twoCountries
           filtered 1 10 "population_high_to_low" "population" (-1)).
  - apply elem_of_cons. by left.
  - reflexivity.
  - intros a b [-> | ->]%twoCountries_values [-> | ->]%twoCountries_values;
      reflexivity.
  - reflexivity.
  - lia.
  - reflexivity.
  - lia.
  - reflexivity.
  - reflexivity.
Defined.

(** The model of [contains] decides what DynamoDB documents. *)
Lemma prefix_spec (t s : string) :
  String.prefix t s = true ↔ ∃ after, s = t +:+ after.
Proof.
  revert s. induction t as [|a t IH]; intros s.
  - split; [by exists s|]. by destruct s.
  - destruct s as [|b s]; cbn [String.prefix].
    + split; [done|]. by intros [after [=]].
    + destruct (Ascii.ascii_dec a b) as [->|Hne].
      * rewrite IH. split; intros [after Hs]; exists after.
        -- cbn. by rewrite Hs.
        -- by injection Hs.
      * split; [done|]. intros [after [= ? _]]. done.
Qed.

Lemma is_substring_unfold (t s : string) :
  JS.is_substring t s =
    String.prefix t s
    || match s with
       | String _ s' => JS.is_substring t s'
       | EmptyString => false
       end.
Proof. by destruct s. Qed.

Lemma is_substring_spec (t s : string) :
  JS.is_substring t s = true ↔ ∃ before after, s = before +:+ t +:+ after.
Proof.
  split.
  - induction s as [|a s IH]; rewrite is_substring_unfold;
      intros [Hp|Hrest]%orb_true_iff; try done.
    + apply prefix_spec in Hp as [after ->]. by exists EmptyString, after.
    + apply prefix_spec in Hp as [after ->]. by exists EmptyString, after.
    + destruct (IH Hrest) as (before & after & ->).
      by exists (String a before), after.
  - intros (before & after & ->).
    induction before as [|a before IH]; rewrite is_substring_unfold.
    + apply orb_true_iff. left. apply prefix_spec. by exists after.
    + change (String a before +:+ t +:+ after)
        with (String a (before +:+ t +:+ after)).
      cbv iota. rewrite IH. apply orb_true_r.
Qed.

Lemma contains_spec (attribute : option json) (operand : string) :
  contains attribute operand = true ↔ containsText operand attribute.
Proof.
  destruct attribute as [[| | |s|l|]|]; cbn; try done.
  - apply is_substring_spec.
  - induction l as [|e l IH]; cbn [existsb].
    + split; [done|]. by intros ?%elem_of_nil.
    + rewrite orb_true_iff, IH, elem_of_cons. split.
      * intros [He|Hl]; [left | by right].
        destruct e; try done. by apply String.eqb_eq in He as ->.
      * intros [<-|Hl]; [left | by right]. apply String.eqb_refl.
Qed.

Lemma FilterExpression_spec (search : string) (i : item) :
  FilterExpression search i = true ↔ matches search i.
Proof.
  unfold FilterExpression, matches.
  by rewrite !orb_true_iff, !contains_spec, (assoc (∨)).
Qed.

Lemma filter_partition {A} (f : A -> bool) (l : list A) :
  l ≡ₚ List.filter f l ++ List.filter (fun x => negb (f x)) l.
Proof.
  induction l as [|x l IH]; [done|]. cbn [List.filter].
  destruct (f x); cbn [negb app].
  - by constructor.
  - by rewrite <- Permutation_middle, <- IH.
Qed.

(** X20: search.  With a search text whose regular expression has the
    source [source], the stored records fall into those whose name, region
    or subregion contains [source] (as a substring when the attribute is a
    string; case matters) and the others: [total] is the number of the
    former, and every record of the page is one of them. *)
Theorem search_lists_matching_records
    (RegExp_source : string -> option string)
    (lessThan : option json -> option json -> bool)
    (qs : option (gmap string string)) (w : world)
    (s source : string) (p l : Z) :
  let q := default ∅ qs in
  let stored := (map_to_list (CountriesTable w)).*2 in
  q !! "search" = Some s -> s ≠ EmptyString ->
  RegExp_source s = Some source ->
  JS.parseInt (default "1" (q !! "page")) = JS.Num p -> 0 < p ->
  JS.parseInt (default "10" (q !! "limit")) = JS.Num l -> 0 < l ->
  Z.of_nat (length stored) < 2 ^ 32 ->
  ∃ matching others window hasNext hasPrev pages,
    stored ≡ₚ matching ++ others
    ∧ Forall (matches source) matching
    ∧ Forall (fun i => ¬ matches source i) others
    ∧ getAllCountriesPaginated RegExp_source lessThan qs w
      = (Return (envelope window hasNext hasPrev p pages l
                   (length matching)), w)
    ∧ window ⊆ matching.
Proof.
  intros q stored Hsearch Hs Hsource Hpage Hp Hlimit Hl Hstored.
  set (matching := List.filter (FilterExpression source) stored).
  set (others :=
    List.filter (fun i => negb (FilterExpression source i)) stored).
  assert (Hpart : stored ≡ₚ matching ++ others) by apply filter_partition.
  assert (Hscan : scanCountries RegExp_source (q !! "search") w
                  = (Return matching, w)).
  { rewrite Hsearch. unfold scanCountries.
    destruct s as [|a s]; [done|]. by rewrite Hsource. }
  assert (Htotal : Z.of_nat (length matching) < 2 ^ 32).
  { apply Permutation_length in Hpart. rewrite length_app in Hpart. lia. }
  pose proof (getAllCountriesPaginated_page RegExp_source lessThan qs w w
                matching p l Hpage Hp Hlimit Hl Hscan Htotal) as Hrun.
  cbv zeta in Hrun. fold q in Hrun.
  set (sorted := Array_sort _ matching) in Hrun.
  assert (Hperm : sorted ≡ₚ matching) by apply Array_sort_perm.
  exists matching, others. eexists _, _, _, _.
  split; [done|]. split; [|split; [|split; [exact Hrun|]]].
  - apply Forall_forall. intros i Hi.
    apply list_elem_of_In, filter_In in Hi as [_ Hi].
    by apply FilterExpression_spec.
  - apply Forall_forall. intros i Hi.
    apply list_elem_of_In, filter_In in Hi as [_ Hi].
    rewrite <- FilterExpression_spec. by destruct (FilterExpression source i).
  - intros i Hi. rewrite <- Hperm. unfold pageWindow in Hi.
    by apply subseteq_take, subseteq_drop in Hi.
Qed.

Lemma search_lists_matching_records_witness :
  let qs : option (gmap string string) := Some {["search" := "Ind"]} in
  let stored := (map_to_list (CountriesTable twoCountries)).*2 in
  ∃ matching others window hasNext hasPrev pages,
    stored ≡ₚ matching ++ others
    ∧ Forall (matches "Ind") matching
    ∧ Forall (fun i => ¬ matches "Ind" i) others
    ∧ getAllCountriesPaginated Some lessThan_typed qs twoCountries
      = (Return (envelope window hasNext hasPrev 1 pages 10
                   (length matching)), twoCountries)
    ∧ window ⊆ matching.
Proof.
  intros qs stored.
  apply (search_lists_matching_records Some lessThan_typed qs twoCountries
           "Ind" "Ind" 1 10).
  - reflexivity.
  - discriminate.
  - reflexivity.
  - reflexivity.
  - lia.
  - reflexivity.
  - lia.
  - reflexivity.
Defined.

(** X21: a search text that [RegExp] rejects is answered 500, whatever the
    page and the limit, although the expression is only made to take its
    source; an empty search text is no search. *)
Theorem search_rejected_or_empty
    (RegExp_source : string -> option string)
    (lessThan : option json -> option json -> bool)
    (q : gmap string string) (w : world) :
  (∀ s, s ≠ EmptyString -> RegExp_source s = None ->
        getAllCountriesPaginated RegExp_source lessThan
          (Some (<["search" := s]> q)) w
        = (Return listingFailed, w))
  ∧ getAllCountriesPaginated RegExp_source lessThan
      (Some (<["search" := EmptyString]> q)) w
    = getAllCountriesPaginated RegExp_source lessThan
        (Some (delete "search" q)) w.
Proof.
  assert (Hother : ∀ (s key : string) , key ≠ "search" ->
            (<["search" := s]> q) !! key = delete "search" q !! key).
  { intros s key Hkey. rewrite lookup_insert_ne, lookup_delete_ne; done. }
  split.
  - intros s Hs Hsource.
    unfold getAllCountriesPaginated, try_catch, bind. cbn [default from_option].
    unfold id. rewrite lookup_insert_eq.
    destruct (sortCriteria _) as [sortKey sortDirection].
    unfold scanCountries. destruct s as [|a s]; [done|]. by rewrite Hsource.
  - unfold getAllCountriesPaginated. cbn [default from_option]. unfold id.
    rewrite lookup_insert_eq, lookup_delete_eq.
    by rewrite !Hother by discriminate.
Qed.

(** ** Handlers that only read *)

Lemma mapM_reads {A B} (f : A -> M B) (l : list A) (w : world) :
  (∀ x, (f x w).2 = w) -> (mapM f l w).2 = w.
Proof.
  intros Hf. induction l as [|x l IH]; [done|].
  cbn [mapM]. unfold bind at 1. specialize (Hf x).
  destruct (f x w) as [[y|e] w1]; cbn [snd] in Hf; subst w1; [|done].
  unfold bind at 1. destruct (mapM f l w) as [[ys|e] w2]; cbn [snd] in IH;
    by subst w2.
Qed.

(** X22: the four handlers that read ([getCountry], [listCountry],
    [getCountryNeighbors], [getAllCountriesPaginated]) leave the tables as
    they are, on every request, whatever they answer. *)
Theorem reading_handlers_change_nothing (w : world) :
  (∀ id, (getCountry id w).2 = w)
  ∧ (listCountry w).2 = w
  ∧ (∀ c, (getCountryNeighbors c w).2 = w)
  ∧ (∀ RegExp_source lessThan qs,
       (getAllCountriesPaginated RegExp_source lessThan qs w).2 = w).
Proof.
  split; [done|]. split; [done|]. split.
  - intros c. unfold getCountryNeighbors, try_catch.
    unfold bind at 1, fetchCountryById at 1.
    destruct (CountriesTable w !! c); [|done].
    unfold bind at 1, fetchNeighborsByCountryId at 1.
    destruct ((filter _ _).*2) as [|x ns]; [done|].
    cbn [length Nat.eqb]. unfold bind at 1.
    match goal with
    | |- context [mapM ?f ?l w] =>
        pose proof (mapM_reads f l w) as Hread;
        destruct (mapM f l w) as [[js|e] w1]
    end; cbn [snd] in Hread; rewrite Hread; try done;
      intros y; unfold bind, fetchCountryById;
      by destruct (CountriesTable w !! y).
  - intros R lt qs. unfold getAllCountriesPaginated, try_catch, bind.
    destruct (sortCriteria _) as [sortKey sortDirection].
    pose proof (scanCountries_world R (default ∅ qs !! "search") w) as Hscan.
    destruct (scanCountries _ _ w) as [[Items|e] w1]; cbn [snd] in Hscan;
      by subst w1.
Qed.
